(** * livereload_server: a shallow embedding of the streaming HTML rewriter,
      the websocket registry and protocol handler, and the static file
      resolver of [livereload_server/__init__.py]. *)

From Stdlib Require Import List ZArith Lia Bool.
From Stdlib Require Import Strings.String Strings.Ascii Strings.Byte.
From Stdlib Require Import Numbers.DecimalString.
From stdpp Require Import base option list gmap strings.

Import ListNotations.
Local Open Scope list_scope.

#[local] Set Warnings "-register-all,-clear-no-such-hyp".

(** ** Python [bytes] and the operations the server uses on them *)

Module Py.

Definition bytes := list byte.

(** A bytes literal [b"..."]. *)
Definition b (s : string) : bytes := list_byte_of_string s.

(** [s.startswith(sub)]. *)
Fixpoint startswith (sub s : bytes) : bool :=
  match sub, s with
  | [], _ => true
  | _ :: _, [] => false
  | x :: sub', y :: s' => Byte.eqb x y && startswith sub' s'
  end.

(** [s.find(sub)]: the lowest index at which [sub] occurs in [s]. *)
Fixpoint find (sub s : bytes) {struct s} : option nat :=
  if startswith sub s then Some 0
  else match s with
       | [] => None
       | _ :: s' => option_map S (find sub s')
       end.

(** [sub in s]. *)
Definition contains (sub s : bytes) : bool :=
  match find sub s with Some _ => true | None => false end.

(** [s.partition(sep)]: split at the first occurrence of [sep]; when [sep]
    does not occur the result is [(s, b"", b"")]. *)
Definition partition (sep s : bytes) : bytes * bytes * bytes :=
  match find sep s with
  | Some i => (firstn i s, sep, skipn (i + length sep) s)
  | None => (s, [], [])
  end.

(** [s[:-k]] for a positive literal [k]: everything but the last [k] bytes
    (empty when [s] has at most [k] bytes). *)
Definition slice_until_neg (k : nat) (s : bytes) : bytes :=
  firstn (length s - k) s.

(** [s[-k:]] for a positive literal [k]: the last [k] bytes (all of [s] when
    it has at most [k] bytes). *)
Definition slice_from_neg (k : nat) (s : bytes) : bytes :=
  skipn (length s - k) s.

(** [s[1:]] on [str]. *)
Definition str_tail (s : string) : string :=
  match s with
  | EmptyString => EmptyString
  | String _ s' => s'
  end.

(** [f"{n}"] for an [int]. *)
Definition format_int (n : Z) : string :=
  NilEmpty.string_of_int (Z.to_int n).

(** The double-quote character, and string concatenation of literal pieces. *)
Definition dq : string := String "034"%char EmptyString.

Definition join (pieces : list string) : string :=
  fold_right String.append EmptyString pieces.

End Py.

(** ** The streaming rewriter: [_stream_file_with_replacement] *)

Module Rewriter.
Import Py.

Definition CHUNK_SIZE : nat := 256 * 1024.

Definition HEAD : bytes := b "</head>".
Definition BODY : bytes := b "</body>".

(** [self._script_to_inject], as built in [__init__]. Only the piece holding
    the port is an f-string, so the doubled braces of its neighbours stay
    doubled. *)
Definition _script_to_inject (port : Z) : string :=
  join [ "<script type="; dq; "text/javascript"; dq; ">";
         "(function(){{";
         "var s=document.createElement("; dq; "script"; dq; ");";
         "var port="; format_int port; ";";
         "s.src="; dq; "//"; dq; "+window.location.hostname+"; dq; ":"; dq;
           "+port+"; dq; "/livereload.js?port="; dq; "+port;";
         "document.head.appendChild(s);";
         "}})();";
         "</script>" ]%string.

(** The local variables of the read loop, with the writer's log of
    [writer.write] calls. *)
Record rewriter := Rewriter {
  wrote_injected_script : bool;
  end_of_last_chunk : bytes;
  written : list bytes
}.

Definition initial : rewriter :=
  {| wrote_injected_script := false; end_of_last_chunk := []; written := [] |}.

(** One iteration of [while chunk:], up to and including the assignment of
    [end_of_last_chunk]; [script] is the encoded [self._script_to_inject]. *)
Definition loop_body (script : bytes) (st : rewriter) (chunk : bytes) : rewriter :=
  let st1 :=
    if negb (wrote_injected_script st) then
      let search_space := end_of_last_chunk st ++ chunk in
      if contains HEAD search_space || contains BODY search_space then
        let '(before, head_tag, after) := partition HEAD chunk in
        {| wrote_injected_script := true;
           end_of_last_chunk := end_of_last_chunk st;
           written := written st ++ [before; script; head_tag; after] |}
      else st
    else
      {| wrote_injected_script := wrote_injected_script st;
         end_of_last_chunk := end_of_last_chunk st;
         written := written st ++ [chunk] |} in
  {| wrote_injected_script := wrote_injected_script st1;
     end_of_last_chunk := slice_until_neg 8 chunk;
     written := written st1 |}.

(** The [while chunk:] loop over the successive results of [fobj.read]: it
    stops at the first empty read. *)
Fixpoint while_chunk (script : bytes) (reads : list bytes) (st : rewriter) : rewriter :=
  match reads with
  | [] => st
  | [] :: _ => st
  | chunk :: reads' => while_chunk script reads' (loop_body script st chunk)
  end.

(** Everything from [wrote_injected_script = False] to the last write before
    [write_eof]: the list of [writer.write] arguments, in order. *)
Definition stream_reads (script : bytes) (reads : list bytes) : list bytes :=
  let st := while_chunk script reads initial in
  if negb (wrote_injected_script st) then written st ++ [script] else written st.

(** The successive results of [fobj.read(size)] on a file holding [f], up
    to (not including) the empty read at end of file. *)
Fixpoint file_reads (fuel size : nat) (f : bytes) : list bytes :=
  match fuel, f with
  | S fuel', _ :: _ => firstn size f :: file_reads fuel' size (skipn size f)
  | _, _ => []
  end.

(** The response body for a file holding [f] read [size] bytes at a time. *)
Definition stream_file (size : nat) (script f : bytes) : bytes :=
  concat (stream_reads script (file_reads (length f) size f)).

(** The response body for an arbitrary chunking. *)
Definition stream_body (script : bytes) (chunks : list bytes) : bytes :=
  concat (stream_reads script chunks).

End Rewriter.

(** ** Exceptions, results and the log *)

Module Effects.

Inductive exn :=
| JSONDecodeError
| KeyError
| TypeError
| RuntimeError
| ConnectionResetError
| ValueError
| RecursionError.

Inductive result (A : Type) :=
| Ok (a : A)
| Raise (e : exn).

Arguments Ok {A} a.
Arguments Raise {A} e.

(** The levels of [logging]. *)
Module logging.

Inductive levelname := INFO | WARNING | ERROR.

End logging.

End Effects.

(** ** The websocket side: registry, broadcast and protocol handler *)

Module LiveReload.
Import Py Effects.

Definition SUPPORTED_PROTOCOL : string :=
  "http://livereload.com/protocols/official-7".

(** Python values as [json.loads] produces them and [send_json] takes them.
    A [dict] is an association list with distinct keys. *)
Inductive json :=
| JNull
| JBool (v : bool)
| JInt (v : Z)
| JFloat (literal : string)
| JStr (v : string)
| JList (items : list json)
| JDict (items : list (string * json)).

(** [d.get(key)] on the items of a [dict]. *)
Fixpoint dict_lookup (key : string) (items : list (string * json)) : option json :=
  match items with
  | [] => None
  | (k, v) :: items' => if String.eqb k key then Some v else dict_lookup key items'
  end.

(** [data[key]] for a [str] key: a [dict] without the key raises [KeyError];
    a list or a string wants integer indices and every other decoded value
    is not subscriptable, which is [TypeError]. *)
Definition subscript (data : json) (key : string) : result json :=
  match data with
  | JDict items =>
      match dict_lookup key items with
      | Some v => Ok v
      | None => Raise KeyError
      end
  | _ => Raise TypeError
  end.

(** [data.get(key, default)], reached on a [dict] only. *)
Definition get (data : json) (key : string) (default : json) : json :=
  match data with
  | JDict items =>
      match dict_lookup key items with
      | Some v => v
      | None => default
      end
  | _ => default
  end.

(** [value == "literal"]. *)
Definition eq_str (value : json) (literal : string) : bool :=
  match value with
  | JStr s => String.eqb s literal
  | _ => false
  end.

Module WSMsgType.

Inductive t :=
| CONTINUATION | TEXT | BINARY | PING | PONG | CLOSE | CLOSING | CLOSED | ERROR.

End WSMsgType.

Record WSMessage := { type : WSMsgType.t; data : string }.

(** A websocket object. [closed] is [ws.closed]; [conn_lost] says that the
    peer's transport is gone; [outbox] holds what [send_json] delivered. *)
Record WebSocketResponse := {
  closed : bool;
  conn_lost : bool;
  outbox : list json
}.

Inductive log_arg :=
| ArgStr (s : string)
| ArgJson (v : json)
| ArgMsgType (t : WSMsgType.t)
| ArgWsException (ws : nat).

Record log_record := {
  level : logging.levelname;
  msg : string;
  args : list log_arg
}.

(** The part of [self] that the handlers read and write: the registry
    [_open_websockets] (a set of websocket objects, here their identities),
    the websocket objects themselves, and the log. *)
Record server := {
  _open_websockets : gset nat;
  sockets : gmap nat WebSocketResponse;
  log : list log_record
}.

(** Handlers run in a state and exception monad over [server]. *)
Definition M (A : Type) : Type := server -> result A * server.

Definition ret {A} (a : A) : M A := fun s => (Ok a, s).

Definition raise {A} (e : exn) : M A := fun s => (Raise e, s).

Definition bind {A B} (c : M A) (k : A -> M B) : M B :=
  fun s =>
    match c s with
    | (Ok a, s') => k a s'
    | (Raise e, s') => (Raise e, s')
    end.

(** [try: body finally: handler]. *)
Definition try_finally {A} (body : M A) (handler : M unit) : M A :=
  fun s =>
    match body s with
    | (r, s') =>
        match handler s' with
        | (Ok _, s'') => (r, s'')
        | (Raise e, s'') => (Raise e, s'')
        end
    end.

Notation "'let*' x ':=' c 'in' k" := (bind c (fun x => k))
  (at level 10, x name, c at level 100, k at level 200).
Notation "c1 ;; c2" := (bind c1 (fun _ => c2))
  (at level 100, c2 at level 200, right associativity).

Definition logger (l : logging.levelname) (fmt : string) (a : list log_arg) : M unit :=
  fun s =>
    (Ok tt, {| _open_websockets := _open_websockets s;
               sockets := sockets s;
               log := log s ++ [{| level := l; msg := fmt; args := a |}] |}).

(** *** The registry: the [WeakSet] operations the server calls *)

(** [ws in self._open_websockets]. *)
Definition registry_contains (ws : nat) : M bool :=
  fun s => (Ok (bool_decide (ws ∈ _open_websockets s)), s).

(** [self._open_websockets.add(ws)]. *)
Definition registry_add (ws : nat) : M unit :=
  fun s =>
    (Ok tt, {| _open_websockets := {[ws]} ∪ _open_websockets s;
               sockets := sockets s;
               log := log s |}).

(** [self._open_websockets.remove(ws)]: [KeyError] when [ws] is absent. *)
Definition registry_remove (ws : nat) : M unit :=
  fun s =>
    if bool_decide (ws ∈ _open_websockets s) then
      (Ok tt, {| _open_websockets := _open_websockets s ∖ {[ws]};
                 sockets := sockets s;
                 log := log s |})
    else (Raise KeyError, s).

(** *** Websocket objects *)

Definition new_socket : WebSocketResponse :=
  {| closed := false; conn_lost := false; outbox := [] |}.

(** [ws = WebSocketResponse(); await ws.prepare(request)]: [ws] names the
    new object. *)
Definition ws_prepare (ws : nat) : M unit :=
  fun s =>
    (Ok tt, {| _open_websockets := _open_websockets s;
               sockets := <[ws := new_socket]> (sockets s);
               log := log s |}).

(** [ws.closed]; an object that was never prepared counts as not closed. *)
Definition ws_closed (ws : nat) : M bool :=
  fun s =>
    (Ok (match sockets s !! ws with Some w => closed w | None => false end), s).

Definition close_socket (w : WebSocketResponse) : WebSocketResponse :=
  {| closed := true; conn_lost := conn_lost w; outbox := outbox w |}.

(** [await ws.close()]. *)
Definition ws_close (ws : nat) : M unit :=
  fun s =>
    (Ok tt, {| _open_websockets := _open_websockets s;
               sockets := alter close_socket ws (sockets s);
               log := log s |}).

Definition deliver (payload : json) (w : WebSocketResponse) : WebSocketResponse :=
  {| closed := closed w; conn_lost := conn_lost w; outbox := outbox w ++ [payload] |}.

(** [await ws.send_json(payload)]: [RuntimeError] before [prepare];
    [ConnectionResetError] once the websocket is closed or its transport is
    gone; otherwise the payload reaches the peer. *)
Definition send_json (ws : nat) (payload : json) : M unit :=
  fun s =>
    match sockets s !! ws with
    | None => (Raise RuntimeError, s)
    | Some w =>
        if closed w || conn_lost w then (Raise ConnectionResetError, s)
        else (Ok tt, {| _open_websockets := _open_websockets s;
                        sockets := <[ws := deliver payload w]> (sockets s);
                        log := log s |})
    end.

(** Whether [send_json] on [ws] delivers in state [s]: the test it makes
    before it writes. *)
Definition can_send (s : server) (ws : nat) : bool :=
  match sockets s !! ws with
  | Some w => negb (closed w || conn_lost w)
  | None => false
  end.

(** *** [reload] and [_on_shutdown] *)

Definition reload_message (path : string) : json :=
  JDict [("command", JStr "reload"); ("path", JStr path); ("liveCSS", JBool true)]%string.

(** [for websocket in websockets: await websocket.send_json(...)]. *)
Fixpoint send_to_each (websockets : list nat) (payload : json) : M unit :=
  match websockets with
  | [] => ret tt
  | websocket :: websockets' =>
      send_json websocket payload ;; send_to_each websockets' payload
  end.

(** [reload(path)]. The registry is iterated in the order [elements]
    lists it. *)
Definition reload (path : string) : M unit :=
  logger logging.INFO ("Reloading " ++ path)%string [] ;;
  fun s => send_to_each (elements (_open_websockets s)) (reload_message path) s.

(** [while self._open_websockets: websocket = pop(); await websocket.close()],
    popping in the order [elements] lists the registry. *)
Fixpoint pop_and_close (websockets : list nat) : M unit :=
  match websockets with
  | [] => ret tt
  | websocket :: websockets' =>
      (fun s => (Ok tt, {| _open_websockets := _open_websockets s ∖ {[websocket]};
                           sockets := sockets s;
                           log := log s |})) ;;
      ws_close websocket ;;
      pop_and_close websockets'
  end.

Definition _on_shutdown : M unit :=
  fun s => pop_and_close (elements (_open_websockets s)) s.

(** *** The protocol handler *)

Definition hello_message : json :=
  JDict [("command", JStr "hello");
         ("protocols", JList [JStr SUPPORTED_PROTOCOL]);
         ("serverName", JStr "python-livereload_server")]%string.

(** The record that the [logger.error] call of the handler below leaves
    for a message that does not decode. *)
Definition non_json_record (message : WSMessage) : log_record :=
  {| level := logging.ERROR;
     msg := "Received non-JSON message from livereload client: %s";
     args := [ArgStr (data message)] |}.

(** [_on_websocket_client_message(ws, message)]; [loads] is the decoder
    behind [message.json()]: it returns the decoded value or raises. Only
    [JSONDecodeError] is caught; any other exception of the decoder
    ([ValueError] for an integer with too many digits, [RecursionError] for
    nesting too deep) leaves the handler. *)
Definition _on_websocket_client_message
    (loads : string -> result json) (ws : nat) (message : WSMessage) : M unit :=
  match loads (data message) with
  | Raise JSONDecodeError =>
      logger logging.ERROR "Received non-JSON message from livereload client: %s"
        [ArgStr (data message)]
  | Raise e => raise e
  | Ok data =>
      match subscript data "command" with
      | Raise e => raise e
      | Ok command =>
          if eq_str command "hello" then
            send_json ws hello_message
          else if eq_str command "info" then
            let url := get data "url" (JStr "<no URL data>") in
            logger logging.INFO "Browser connected (livereload): %s" [ArgJson url]
          else
            logger logging.WARNING "Received unknown command from livereload client: %s"
              [ArgJson command]
      end
  end.

(** The body of [async for message in ws]. *)
Definition on_message
    (loads : string -> result json) (ws : nat) (message : WSMessage) : M unit :=
  match type message with
  | WSMsgType.TEXT => _on_websocket_client_message loads ws message
  | WSMsgType.ERROR =>
      logger logging.WARNING "Websocket closed with error: %s" [ArgWsException ws] ;;
      registry_remove ws ;;
      ws_close ws
  | WSMsgType.CLOSE =>
      registry_remove ws ;;
      ws_close ws
  | t => logger logging.WARNING "Unknown web-socket message type: %s" [ArgMsgType t]
  end.

(** [async for message in ws: ...] over the messages the iterator yields. *)
Fixpoint async_for
    (loads : string -> result json) (ws : nat) (messages : list WSMessage) : M unit :=
  match messages with
  | [] => ret tt
  | message :: messages' =>
      on_message loads ws message ;; async_for loads ws messages'
  end.

(** The [finally] block of [_get_livereload_socket]. *)
Definition cleanup (ws : nat) : M unit :=
  (let* present := registry_contains ws in
   if present then registry_remove ws else ret tt) ;;
  (let* is_closed := ws_closed ws in
   if negb is_closed then ws_close ws else ret tt).

(** The [try ... finally] statement of [_get_livereload_socket]. *)
Definition connection_loop
    (loads : string -> result json) (ws : nat) (messages : list WSMessage) : M unit :=
  try_finally (async_for loads ws messages) (cleanup ws).

(** [_get_livereload_socket(request)], for the websocket object [ws] it
    creates and the messages its iterator yields. *)
Definition _get_livereload_socket
    (loads : string -> result json) (ws : nat) (messages : list WSMessage) : M nat :=
  ws_prepare ws ;;
  registry_add ws ;;
  connection_loop loads ws messages ;;
  ret ws.

End LiveReload.

(** ** The static file handler: [_get_static_file] *)

Module Static.
Import Py Effects Rewriter.

(** What the handler asks of [pathlib], the file system, [mimetypes] and the
    codecs of [str.encode]. *)
Class Host (Path : Type) := {
  (** [p / s] *)
  joinpath : Path -> string -> Path;
  is_dir : Path -> bool;
  is_file : Path -> bool;
  (** [str(p)], as an f-string and [%s] render a path *)
  path_str : Path -> string;
  (** [p.relative_to(other)]; [None] is [ValueError] *)
  relative_to : Path -> Path -> option Path;
  (** the bytes [p.open("rb")] reads *)
  read_bytes : Path -> bytes;
  (** [mimetypes.guess_type(p)] *)
  guess_type : Path -> option string * option string;
  (** [text.encode(codec)]; [None] is [LookupError], as for a codec that
      is not a text encoding *)
  encode : string -> string -> option bytes
}.

Inductive static_exn := ValueError | LookupError.

Record Request := { path : string }.

(** A response: a whole-body one, a file, a stream that was written to
    its end, or a stream that an exception cut short after the headers and
    [writes] had been sent. *)
Inductive response (Path : Type) :=
| Response (status : nat) (text : string)
| FileResponse (file : Path)
| StreamResponse (content_type : string) (writes : list bytes)
| StreamAborted (content_type : string) (writes : list bytes) (e : static_exn).

Arguments Response {Path} status text.
Arguments FileResponse {Path} file.
Arguments StreamResponse {Path} content_type writes.
Arguments StreamAborted {Path} content_type writes e.

(** The bytes a response has streamed through its writer. *)
Definition streamed {Path} (r : response Path) : list bytes :=
  match r with
  | StreamResponse _ writes => writes
  | StreamAborted _ writes _ => writes
  | _ => []
  end.

Definition log_line : Type := logging.levelname * string * list string.

(** A handler's outcome: the lines it logged, and its response or the
    exception it raised before it had begun one. *)
Definition outcome (Path : Type) : Type :=
  list log_line * (response Path + static_exn).

(** [encoding or "utf-8"]. *)
Definition encoding_or_utf8 (encoding : option string) : string :=
  match encoding with
  | None => "utf-8"
  | Some EmptyString => "utf-8"
  | Some e => e
  end.

(** What the read loop has written when it first comes to write the
    script: the part before [</head>] of the chunk in which a marker is
    seen, or nothing when the file ends without one. *)
Fixpoint written_before_script (reads : list bytes) (end_of_last_chunk : bytes) :
    list bytes :=
  match reads with
  | [] => []
  | [] :: _ => []
  | chunk :: reads' =>
      let search_space := end_of_last_chunk ++ chunk in
      if contains HEAD search_space || contains BODY search_space then
        let '(before, _, _) := partition HEAD chunk in [before]
      else written_before_script reads' (slice_until_neg 8 chunk)
  end.

(** [_stream_file_with_replacement(request, destination_file)]. The script
    is encoded where it is written: when [encode] raises, the response is
    cut short at the first write of the script. *)
Definition _stream_file_with_replacement {Path} `{Host Path}
    (_path_to_serve : Path) (port : Z) (destination_file : Path) : outcome Path :=
  let '(content_type, encoding) := guess_type destination_file in
  match content_type with
  | Some "text/html"%string =>
      let f := read_bytes destination_file in
      let reads := file_reads (length f) CHUNK_SIZE f in
      match encode (_script_to_inject port) (encoding_or_utf8 encoding) with
      | Some script =>
          ([], inl (StreamResponse "text/html" (stream_reads script reads)))
      | None =>
          ([], inl (StreamAborted "text/html" (written_before_script reads [])
                      LookupError))
      end
  | _ =>
      match relative_to destination_file _path_to_serve with
      | None => ([], inr ValueError)
      | Some rel =>
          ([(logging.INFO, "Responding with non-html file (%s): %s"%string,
             [match content_type with Some c => c | None => "None"%string end;
              path_str rel])],
           inl (FileResponse destination_file))
      end
  end.

Definition not_found_text {Path} `{Host Path}
    (request_path : string) (destination_file : Path) : string :=
  join ["Not found! "; request_path; " (file: "; path_str destination_file; ")"]%string.

(** The file the handler settles on: the path under the serving root, or
    its [index.html] when it is a directory that has one. *)
Definition resolve {Path} `{Host Path}
    (_path_to_serve : Path) (request : Request) : Path :=
  let destination_file := joinpath _path_to_serve (str_tail (path request)) in
  if is_dir destination_file && is_file (joinpath destination_file "index.html")
  then joinpath destination_file "index.html"
  else destination_file.

Definition _get_static_file {Path} `{Host Path}
    (_path_to_serve : Path) (port : Z) (request : Request) : outcome Path :=
  let serving := (logging.INFO, "Serving %s"%string, [path request]) in
  let destination_file := resolve _path_to_serve request in
  if negb (is_file destination_file) then
    ([serving], inl (Response 404 (not_found_text (path request) destination_file)))
  else
    let '(lines, r) := _stream_file_with_replacement _path_to_serve port destination_file in
    (serving :: lines, r).

End Static.

(** ** A decoder for messages and a host for paths, to run the handlers on *)

(** [json.loads] on the fragment of JSON without escape sequences,
    fractions, exponents and the constants [NaN] and [Infinity]: a text of
    the fragment is decoded, or raises [JSONDecodeError] when it is not
    well formed and [ValueError] at an integer of more than 4300 digits; a
    text outside the fragment is answered with [JSONDecodeError]. *)
Module MiniJson.
Import Effects LiveReload.

Definition is_ws (c : ascii) : bool :=
  Ascii.eqb c " " || Ascii.eqb c "009" || Ascii.eqb c "010" || Ascii.eqb c "013".

Fixpoint skip_ws (s : list ascii) : list ascii :=
  match s with
  | c :: s' => if is_ws c then skip_ws s' else s
  | [] => []
  end.

Fixpoint strip_prefix (literal s : list ascii) : option (list ascii) :=
  match literal, s with
  | [], _ => Some s
  | _ :: _, [] => None
  | x :: literal', y :: s' => if Ascii.eqb x y then strip_prefix literal' s' else None
  end.

Definition digit (c : ascii) : option Z :=
  let n := nat_of_ascii c in
  if (48 <=? n)%nat && (n <=? 57)%nat then Some (Z.of_nat (n - 48)) else None.

Fixpoint digits (acc : Z) (s : list ascii) : Z * list ascii :=
  match s with
  | c :: s' =>
      match digit c with
      | Some d => digits (10 * acc + d)%Z s'
      | None => (acc, s)
      end
  | [] => (acc, [])
  end.

(** An integer without sign; a leading zero ends the number. *)
Definition number (s : list ascii) : option (Z * list ascii) :=
  match s with
  | c :: s' =>
      match digit c with
      | Some 0%Z => Some (0%Z, s')
      | Some d => Some (digits d s')
      | None => None
      end
  | [] => None
  end.

Definition starts_fraction (s : list ascii) : bool :=
  match s with
  | c :: _ => Ascii.eqb c "." || Ascii.eqb c "e" || Ascii.eqb c "E"
  | [] => false
  end.

(** The characters of a string after its opening quote. *)
Fixpoint string_body (s : list ascii) : option (string * list ascii) :=
  match s with
  | [] => None
  | c :: s' =>
      if Ascii.eqb c "034" then Some (EmptyString, s')
      else if Ascii.eqb c "\" || (nat_of_ascii c <? 32)%nat then None
      else match string_body s' with
           | Some (v, rest) => Some (String c v, rest)
           | None => None
           end
  end.

(** [d[k] = v]: a repeated key keeps its place and takes the later value. *)
Fixpoint dict_set (k : string) (v : json) (items : list (string * json)) :
    list (string * json) :=
  match items with
  | [] => [(k, v)]
  | (k', v') :: items' =>
      if String.eqb k' k then (k, v) :: items' else (k', v') :: dict_set k v items'
  end.

Definition chars (s : string) : list ascii := list_ascii_of_string s.

(** [int(literal)] for a literal of [digits_read] digits: [ValueError]
    beyond the limit of 4300 digits. *)
Definition integer (digits_read : nat) (n : Z) (rest : list ascii) :
    result (json * list ascii) :=
  if (4300 <? digits_read)%nat then Raise ValueError else Ok (JInt n, rest).

Fixpoint value (fuel : nat) (s : list ascii) : result (json * list ascii) :=
  match fuel with
  | 0 => Raise RecursionError
  | S fuel' =>
      match skip_ws s with
      | [] => Raise JSONDecodeError
      | c :: rest =>
          if Ascii.eqb c "034" then
            match string_body rest with
            | Some (v, rest') => Ok (JStr v, rest')
            | None => Raise JSONDecodeError
            end
          else if Ascii.eqb c "[" then
            match skip_ws rest with
            | c' :: rest' => if Ascii.eqb c' "]" then Ok (JList [], rest')
                             else items fuel' rest []
            | [] => Raise JSONDecodeError
            end
          else if Ascii.eqb c "{" then
            match skip_ws rest with
            | c' :: rest' => if Ascii.eqb c' "}" then Ok (JDict [], rest')
                             else members fuel' rest []
            | [] => Raise JSONDecodeError
            end
          else if Ascii.eqb c "-" then
            match number rest with
            | Some (n, rest') =>
                if starts_fraction rest' then Raise JSONDecodeError
                else integer (length rest - length rest') (- n) rest'
            | None => Raise JSONDecodeError
            end
          else
            match strip_prefix (chars "null") (c :: rest),
                  strip_prefix (chars "true") (c :: rest),
                  strip_prefix (chars "false") (c :: rest) with
            | Some rest', _, _ => Ok (JNull, rest')
            | _, Some rest', _ => Ok (JBool true, rest')
            | _, _, Some rest' => Ok (JBool false, rest')
            | None, None, None =>
                match number (c :: rest) with
                | Some (n, rest') =>
                    if starts_fraction rest' then Raise JSONDecodeError
                    else integer (length (c :: rest) - length rest') n rest'
                | None => Raise JSONDecodeError
                end
            end
      end
  end
with items (fuel : nat) (s : list ascii) (acc : list json) : result (json * list ascii) :=
  match fuel with
  | 0 => Raise RecursionError
  | S fuel' =>
      match value fuel' s with
      | Ok (v, rest) =>
          match skip_ws rest with
          | c :: rest' =>
              if Ascii.eqb c "," then items fuel' rest' (acc ++ [v])
              else if Ascii.eqb c "]" then Ok (JList (acc ++ [v]), rest')
              else Raise JSONDecodeError
          | [] => Raise JSONDecodeError
          end
      | Raise e => Raise e
      end
  end
with members (fuel : nat) (s : list ascii) (acc : list (string * json)) :
    result (json * list ascii) :=
  match fuel with
  | 0 => Raise RecursionError
  | S fuel' =>
      match skip_ws s with
      | q :: s' =>
          if Ascii.eqb q "034" then
            match string_body s' with
            | Some (k, rest) =>
                match skip_ws rest with
                | colon :: rest' =>
                    if Ascii.eqb colon ":" then
                      match value fuel' rest' with
                      | Ok (v, rest'') =>
                          match skip_ws rest'' with
                          | c :: rest3 =>
                              if Ascii.eqb c "," then members fuel' rest3 (dict_set k v acc)
                              else if Ascii.eqb c "}" then Ok (JDict (dict_set k v acc), rest3)
                              else Raise JSONDecodeError
                          | [] => Raise JSONDecodeError
                          end
                      | Raise e => Raise e
                      end
                    else Raise JSONDecodeError
                | [] => Raise JSONDecodeError
                end
            | None => Raise JSONDecodeError
            end
          else Raise JSONDecodeError
      | [] => Raise JSONDecodeError
      end
  end.

Definition loads (s : string) : result json :=
  match value (S (String.length s)) (chars s) with
  | Ok (v, rest) =>
      match skip_ws rest with
      | [] => Ok v
      | _ :: _ => Raise JSONDecodeError
      end
  | Raise e => Raise e
  end.

(** A text of [n] nines: an integer literal of [n] digits. *)
Fixpoint nines (n : nat) : string :=
  match n with
  | 0 => EmptyString
  | S n' => String "9" (nines n')
  end.

End MiniJson.

(** POSIX paths in the manner of [pathlib.PurePosixPath], over a file
    system given as a table from paths to nodes, with the [mimetypes] of the
    suffixes [.html], [.htm], [.css], [.js] and [.txt], the encodings of the
    suffixes [.gz], [.bz2], [.xz] and [.br], and the [utf-8] codec of
    ASCII text. *)
Module Posix.
Import Py Static.

Record PurePosixPath := { anchored : bool; parts : list string }.

Fixpoint split_slash (s cur : string) : list string :=
  match s with
  | EmptyString => [cur]
  | String c s' =>
      if Ascii.eqb c "/" then cur :: split_slash s' EmptyString
      else split_slash s' (cur ++ String c EmptyString)%string
  end.

Definition keep (part : string) : bool :=
  negb (String.eqb part "") && negb (String.eqb part ".").

Definition parse (s : string) : PurePosixPath :=
  {| anchored := match s with
                 | String c _ => Ascii.eqb c "/"
                 | EmptyString => false
                 end;
     parts := List.filter keep (split_slash s EmptyString) |}.

Definition truediv (p : PurePosixPath) (s : string) : PurePosixPath :=
  let q := parse s in
  if anchored q then q
  else {| anchored := anchored p; parts := parts p ++ parts q |}.

Definition str (p : PurePosixPath) : string :=
  match parts p with
  | [] => if anchored p then "/" else "."
  | _ :: _ =>
      ((if anchored p then "/" else "") ++ String.concat "/" (parts p))%string
  end.

Fixpoint strip_parts (prefix l : list string) : option (list string) :=
  match prefix, l with
  | [], _ => Some l
  | _ :: _, [] => None
  | x :: prefix', y :: l' => if String.eqb x y then strip_parts prefix' l' else None
  end.

Definition relative (p other : PurePosixPath) : option PurePosixPath :=
  if Bool.eqb (anchored p) (anchored other) then
    match strip_parts (parts other) (parts p) with
    | Some l => Some {| anchored := false; parts := l |}
    | None => None
    end
  else None.

Inductive node :=
| Directory
| File (content : bytes).

Fixpoint stat (fs : list (string * node)) (name : string) : option node :=
  match fs with
  | [] => None
  | (k, n) :: fs' => if String.eqb k name then Some n else stat fs' name
  end.

Definition ends_with (suffix s : string) : bool :=
  let n := String.length s in
  let m := String.length suffix in
  (m <=? n)%nat && String.eqb (String.substring (n - m) m s) suffix.

Definition drop_suffix (suffix s : string) : string :=
  String.substring 0 (String.length s - String.length suffix) s.

(** The encoding that a last suffix stands for, and the name without it. *)
Definition encoding_of (name : string) : option string * string :=
  if ends_with ".gz" name then (Some "gzip", drop_suffix ".gz" name)
  else if ends_with ".bz2" name then (Some "bzip2", drop_suffix ".bz2" name)
  else if ends_with ".xz" name then (Some "xz", drop_suffix ".xz" name)
  else if ends_with ".br" name then (Some "br", drop_suffix ".br" name)
  else (None, name).

Definition type_of (name : string) : option string :=
  if ends_with ".html" name || ends_with ".htm" name then Some "text/html"
  else if ends_with ".css" name then Some "text/css"
  else if ends_with ".js" name then Some "text/javascript"
  else if ends_with ".txt" name then Some "text/plain"
  else None.

Definition guess (p : PurePosixPath) : option string * option string :=
  let '(encoding, name) := encoding_of (List.last (parts p) EmptyString) in
  (type_of name, encoding).

Definition host (fs : list (string * node)) : Host PurePosixPath :=
  {| joinpath := truediv;
     is_dir := fun p => match stat fs (str p) with Some Directory => true | _ => false end;
     is_file := fun p => match stat fs (str p) with Some (File _) => true | _ => false end;
     path_str := str;
     relative_to := relative;
     read_bytes := fun p => match stat fs (str p) with Some (File c) => c | _ => [] end;
     guess_type := guess;
     encode := fun text codec =>
                 if String.eqb codec "utf-8" then Some (b text) else None |}.

End Posix.

(** ** The search spaces of the read loop *)

Module Searching.
Import Py Rewriter.

(** The search space of read [k] of [chunks]: read [k] after the carry-over
    of the iteration before it, which is [carry] for the first read and
    [chunk[:-8]] of read [k - 1] for the others. *)
Fixpoint search_space (carry : bytes) (chunks : list bytes) (k : nat) : bytes :=
  match chunks, k with
  | [], _ => []
  | chunk :: _, 0 => carry ++ chunk
  | chunk :: chunks', S k' => search_space (slice_until_neg 8 chunk) chunks' k'
  end.

(** The test that the loop makes on read [k] while it has not written the
    script. *)
Definition marker_seen (carry : bytes) (chunks : list bytes) (k : nat) : bool :=
  contains HEAD (search_space carry chunks k)
  || contains BODY (search_space carry chunks k).

End Searching.

(** ** [_get_forcereload], and relations between the states before and
    after a handler *)

Module Handlers.
Import Py Effects LiveReload.

(** [request.query.get(key, default)]: the first value under [key]. *)
Fixpoint query_get (key default : string) (query : list (string * string)) : string :=
  match query with
  | [] => default
  | (k, v) :: query' => if String.eqb k key then v else query_get key default query'
  end.

(** [aiohttp.web.Response(status=...)], which has no body. *)
Record Response := { status : nat; text : option string }.

(** [_get_forcereload(request)], for the query of the request. *)
Definition _get_forcereload (query : list (string * string)) : M Response :=
  reload (query_get "path" "*" query) ;;
  ret {| status := 200; text := None |}.

(** [keeps R c]: running [c] takes every state to one that [R] relates to
    it, whether [c] returns or raises. *)
Definition keeps {A : Type} (R : server -> server -> Prop) (c : M A) : Prop :=
  forall s, R s (snd (c s)).

(** Every websocket other than [ws] is in [s'] what it was in [s]:
    registered or not, and the same object. *)
Definition others_untouched (ws : nat) (s s' : server) : Prop :=
  forall other, other <> ws ->
    (other ∈ _open_websockets s' <-> other ∈ _open_websockets s) /\
    sockets s' !! other = sockets s !! other.

(** The websocket [ws], when [s] has it, is still there in [s'] and has been
    sent nothing but acknowledgements since. *)
Definition only_acknowledged (ws : nat) (s s' : server) : Prop :=
  match sockets s !! ws with
  | Some w =>
      exists w' n,
        sockets s' !! ws = Some w' /\
        outbox w' = outbox w ++ repeat hello_message n
  | None => True
  end.

End Handlers.

(** * Properties *)

(** ** The streaming rewriter *)

Module RewriterFacts.
Import Py Rewriter.

Lemma startswith_app (sub s : bytes) :
  startswith sub s = true -> s = sub ++ skipn (length sub) s.
Proof.
  revert s. induction sub as [|x sub IH]; intros s H.
  - reflexivity.
  - destruct s as [|y s]; [discriminate|].
    simpl in H. apply andb_prop in H as [Hxy Hrest].
    apply Byte.byte_dec_bl in Hxy. subst y.
    simpl. f_equal. now apply IH.
Qed.

Lemma find_split (sub s : bytes) (i : nat) :
  find sub s = Some i -> s = firstn i s ++ sub ++ skipn (i + length sub) s.
Proof.
  revert i. induction s as [|y s IH]; intros i H.
  - simpl in H. destruct (startswith sub []) eqn:E; [|discriminate].
    injection H as <-. now apply startswith_app.
  - simpl in H. destruct (startswith sub (y :: s)) eqn:E.
    + injection H as <-. now apply startswith_app.
    + destruct (find sub s) as [j|] eqn:F; [|discriminate].
      injection H as <-. simpl. f_equal. now apply IH.
Qed.

(** [partition] loses nothing: its three parts make up the input. *)
Lemma partition_join (sep s : bytes) :
  let '(before, found, after) := partition sep s in before ++ found ++ after = s.
Proof.
  unfold partition. destruct (find sep s) as [i|] eqn:F.
  - symmetry. now apply find_split.
  - now rewrite app_nil_r.
Qed.

Lemma concat_file_reads (size : nat) (f : bytes) (fuel : nat) :
  0 < size -> length f <= fuel -> concat (file_reads fuel size f) = f.
Proof.
  intros Hsize. revert f. induction fuel as [|fuel IH]; intros f Hlen.
  - destruct f; [reflexivity | simpl in Hlen; lia].
  - destruct f as [|x f]; [reflexivity|].
    change (firstn size (x :: f) ++ concat (file_reads fuel size (skipn size (x :: f)))
            = x :: f).
    rewrite IH.
    + apply firstn_skipn.
    + rewrite length_skipn. simpl in *. lia.
Qed.

(** Reading [size >= 1] bytes at a time reads the whole file, in order. *)
Lemma file_reads_cover (size : nat) (f : bytes) :
  0 < size -> concat (file_reads (length f) size f) = f.
Proof. intros H. now apply concat_file_reads. Qed.

Section OneScript.

Variable script : bytes.

(** What [end_of_last_chunk = chunk[:-8]] keeps: the chunk without its last
    eight bytes. *)
Lemma loop_body_carry (st : rewriter) (chunk : bytes) :
  end_of_last_chunk (loop_body script st chunk) = firstn (length chunk - 8) chunk.
Proof. reflexivity. Qed.

Lemma loop_body_after_injection (st : rewriter) (chunk : bytes) :
  wrote_injected_script st = true ->
  wrote_injected_script (loop_body script st chunk) = true /\
  written (loop_body script st chunk) = written st ++ [chunk].
Proof. intros H. unfold loop_body. rewrite H. simpl. split; reflexivity. Qed.

(** A chunk in which no marker is seen is written nowhere. *)
Lemma loop_body_unseen (st : rewriter) (chunk : bytes) :
  wrote_injected_script st = false ->
  wrote_injected_script (loop_body script st chunk) = false ->
  written (loop_body script st chunk) = written st.
Proof.
  intros H. unfold loop_body. rewrite H. simpl.
  destruct (contains HEAD (end_of_last_chunk st ++ chunk)
            || contains BODY (end_of_last_chunk st ++ chunk)).
  - destruct (partition HEAD chunk) as [[before head_tag] after]. simpl. discriminate.
  - reflexivity.
Qed.

Lemma while_chunk_stays_injected (reads : list bytes) (st : rewriter) :
  wrote_injected_script st = true ->
  wrote_injected_script (while_chunk script reads st) = true.
Proof.
  revert st. induction reads as [|chunk reads IH]; intros st H; [exact H|].
  destruct chunk as [|x chunk]; [exact H|].
  cbn [while_chunk]. apply IH. now apply loop_body_after_injection.
Qed.

Lemma while_chunk_unseen (reads : list bytes) (st : rewriter) :
  wrote_injected_script st = false ->
  wrote_injected_script (while_chunk script reads st) = false ->
  written (while_chunk script reads st) = written st.
Proof.
  revert st. induction reads as [|chunk reads IH]; intros st H Hend; [reflexivity|].
  destruct chunk as [|x chunk]; [reflexivity|].
  cbn [while_chunk] in *.
  destruct (wrote_injected_script (loop_body script st (x :: chunk))) eqn:E.
  - rewrite while_chunk_stays_injected in Hend by exact E. discriminate.
  - rewrite IH by assumption. now apply loop_body_unseen.
Qed.

(** When no iteration sees a marker, the response is the script alone:
    none of the file's bytes were written. *)
Lemma undetected_body (reads : list bytes) :
  wrote_injected_script (while_chunk script reads initial) = false ->
  stream_reads script reads = [script].
Proof.
  intros H. unfold stream_reads. rewrite H. simpl.
  now rewrite while_chunk_unseen.
Qed.

(** A file read as one chunk that holds [</head>]: the script goes right
    before the first [</head>] and the chunk is otherwise kept. *)
Lemma head_in_one_chunk (chunk : bytes) (i : nat) :
  find HEAD chunk = Some i ->
  stream_body script [chunk]
  = firstn i chunk ++ script ++ HEAD ++ skipn (i + length HEAD) chunk.
Proof.
  intros F.
  assert (Hne : chunk <> []).
  { intros ->. vm_compute in F. discriminate. }
  assert (C : contains HEAD chunk = true) by (unfold contains; now rewrite F).
  destruct chunk as [|x chunk]; [congruence|].
  unfold stream_body, stream_reads. cbn [while_chunk].
  unfold loop_body, partition.
  cbn [wrote_injected_script initial end_of_last_chunk negb app written].
  rewrite C, F. simpl. now rewrite app_nil_r.
Qed.

End OneScript.

(** The writes are the same for every script but for one slot, which holds
    the script: it is written exactly once, whatever the reads. *)
Lemma loop_body_one_slot (stf : bytes -> rewriter) (chunk : bytes) :
  ((exists e w, forall script, stf script = Rewriter false e w) \/
   (exists e pre post, forall script, stf script = Rewriter true e (pre ++ script :: post))) ->
  (exists e w, forall script, loop_body script (stf script) chunk = Rewriter false e w) \/
  (exists e pre post, forall script,
      loop_body script (stf script) chunk = Rewriter true e (pre ++ script :: post)).
Proof.
  intros [(e & w & H) | (e & pre & post & H)].
  - destruct (contains HEAD (e ++ chunk) || contains BODY (e ++ chunk)) eqn:E.
    + right. destruct (partition HEAD chunk) as [[before head_tag] after] eqn:P.
      exists (slice_until_neg 8 chunk), (w ++ [before]), [head_tag; after].
      intros script. unfold loop_body. rewrite H. simpl. rewrite E, P. simpl.
      now rewrite <- app_assoc.
    + left. exists (slice_until_neg 8 chunk), w.
      intros script. unfold loop_body. rewrite H. simpl. now rewrite E.
  - right. exists (slice_until_neg 8 chunk), pre, (post ++ [chunk]).
    intros script. unfold loop_body. rewrite H. simpl.
    now rewrite <- app_assoc.
Qed.

Lemma while_chunk_one_slot (reads : list bytes) (stf : bytes -> rewriter) :
  ((exists e w, forall script, stf script = Rewriter false e w) \/
   (exists e pre post, forall script, stf script = Rewriter true e (pre ++ script :: post))) ->
  (exists e w, forall script, while_chunk script reads (stf script) = Rewriter false e w) \/
  (exists e pre post, forall script,
      while_chunk script reads (stf script) = Rewriter true e (pre ++ script :: post)).
Proof.
  revert stf. induction reads as [|chunk reads IH]; intros stf H; [exact H|].
  destruct chunk as [|x chunk]; [exact H|].
  cbn [while_chunk].
  apply (IH (fun script => loop_body script (stf script) (x :: chunk))).
  now apply loop_body_one_slot.
Qed.

Lemma script_written_once (reads : list bytes) :
  exists pre post, forall script, stream_reads script reads = pre ++ script :: post.
Proof.
  destruct (while_chunk_one_slot reads (fun _ => initial)) as [(e & w & H) | (e & pre & post & H)].
  - left. now exists [], [].
  - exists w, []. intros script. unfold stream_reads. now rewrite H.
  - exists pre, post. intros script. unfold stream_reads. now rewrite H.
Qed.

End RewriterFacts.

(** ** The rewriter on the files that show where it departs from its
    docstring *)

Module RewriterCases.
Import Py Rewriter.

(** C1. A file whose only marker is [</body>], read as one chunk of
    [CHUNK_SIZE] bytes: the script is written after the whole chunk, hence
    after [</body>] and not immediately before it. And a file whose
    [</head>] arrives in the second chunk: the first chunk is written
    nowhere, so the bytes around the script are not the file's. *)
Theorem body_marker_script_after_chunk :
  let script := b (_script_to_inject 8000) in
  let file := b "<html><body><p>hi</p></body></html>" in
  stream_file CHUNK_SIZE script file = file ++ script /\
  stream_file CHUNK_SIZE script file
    <> b "<html><body><p>hi</p>" ++ script ++ b "</body></html>" /\
  stream_body script [b "<html>"; b "<head></head><body></body></html>"]
    = b "<head>" ++ script ++ b "</head><body></body></html>".
Proof.
  cbv zeta. split; [|split].
  - vm_compute. reflexivity.
  - intros H. vm_compute in H. discriminate H.
  - vm_compute. reflexivity.
Qed.

(** C2. A file whose [</head>] is split between two reads, [</hea] ending
    the first and [d>] starting the second: no iteration sees the marker,
    the flag is still unset when the loop ends, and the response is the
    script alone, without any byte of the file. *)
Theorem split_marker_not_detected :
  let script := b (_script_to_inject 8000) in
  let file := b "<html><head></head><p>x</p></html>" in
  file_reads (length file) 17 file = [b "<html><head></hea"; b "d><p>x</p></html>"] /\
  wrote_injected_script
    (while_chunk script (file_reads (length file) 17 file) initial) = false /\
  stream_file 17 script file = script.
Proof.
  cbv zeta. split; [|split]; vm_compute; reflexivity.
Qed.

(** The same at the server's own chunk size: [</hea] ends the first read of
    [CHUNK_SIZE] bytes. *)
Lemma split_marker_at_chunk_size :
  let script := b (_script_to_inject 8000) in
  let file := repeat x20 (CHUNK_SIZE - 5) ++ b "</head><p>x</p>" in
  stream_file CHUNK_SIZE script file = script.
Proof. cbv zeta. vm_compute. reflexivity. Qed.

(** C3. After a chunk of sixteen bytes the carry-over holds its first eight
    bytes, not its trailing six; and with [</hea] at the end of a chunk the
    next search space does not hold the marker. *)
Theorem carry_over_is_chunk_without_last_eight :
  let script := b (_script_to_inject 8000) in
  let chunk := b "0123456789abcdef" in
  end_of_last_chunk (loop_body script initial chunk) = b "01234567" /\
  slice_from_neg 6 chunk = b "abcdef" /\
  end_of_last_chunk (loop_body script initial chunk) <> slice_from_neg 6 chunk /\
  let carry := end_of_last_chunk (loop_body script initial (b "<html><head></hea")) in
  carry = b "<html><he" /\
  contains HEAD (carry ++ b "d><p>x</p></html>") = false.
Proof.
  cbv zeta. repeat split; try (vm_compute; reflexivity).
  intros H. vm_compute in H. discriminate H.
Qed.

(** C5. A file without any marker, read as one chunk of [CHUNK_SIZE] bytes:
    the response is the script alone, not the file followed by the script. *)
Theorem unmarked_file_not_written :
  let script := b (_script_to_inject 8000) in
  let file := b "<p>hello</p>" in
  stream_file CHUNK_SIZE script file = script /\
  stream_file CHUNK_SIZE script file <> file ++ script.
Proof.
  cbv zeta. split.
  - vm_compute. reflexivity.
  - intros H. vm_compute in H. discriminate H.
Qed.

End RewriterCases.

(** ** The registry, the broadcast and the protocol handler *)

Module LiveReloadFacts.
Import Py Effects LiveReload.

(** *** Sending *)

Lemma send_json_delivers (ws : nat) (payload : json) (s : server) :
  can_send s ws = true ->
  exists w,
    sockets s !! ws = Some w /\
    send_json ws payload s
    = (Ok tt, {| _open_websockets := _open_websockets s;
                 sockets := <[ws := deliver payload w]> (sockets s);
                 log := log s |}).
Proof.
  unfold can_send, send_json. intros H.
  destruct (sockets s !! ws) as [w|]; [|discriminate].
  exists w. split; [reflexivity|].
  apply negb_true_iff in H. now rewrite H.
Qed.

Lemma send_json_fails (ws : nat) (payload : json) (s : server) :
  can_send s ws = false ->
  exists e, send_json ws payload s = (Raise e, s).
Proof.
  unfold can_send, send_json. intros H.
  destruct (sockets s !! ws) as [w|].
  - apply negb_false_iff in H. rewrite H. now exists ConnectionResetError.
  - now exists RuntimeError.
Qed.

Lemma can_send_after_insert (s : server) (ws other : nat) (w : WebSocketResponse) :
  other <> ws ->
  can_send {| _open_websockets := _open_websockets s;
              sockets := <[ws := w]> (sockets s);
              log := log s |} other
  = can_send s other.
Proof.
  intros Hne. unfold can_send. simpl. now rewrite lookup_insert_ne.
Qed.

(** The loop of [reload] over a list without repetition: the sockets up to
    the first one that cannot be sent to get the payload, the loop raises
    at that one, and it and all later ones are left as they were. *)
Lemma send_to_each_until_failure (payload : json) (pre post : list nat) (s : server) :
  NoDup (pre ++ post) ->
  forallb (can_send s) pre = true ->
  match post with [] => True | w :: _ => can_send s w = false end ->
  exists r s',
    send_to_each (pre ++ post) payload s = (r, s') /\
    match post with [] => r = Ok tt | _ :: _ => exists e, r = Raise e end /\
    _open_websockets s' = _open_websockets s /\
    log s' = log s /\
    (forall ws, ws ∈ pre -> sockets s' !! ws = deliver payload <$> sockets s !! ws) /\
    (forall ws, ws ∉ pre -> sockets s' !! ws = sockets s !! ws).
Proof.
  revert s. induction pre as [|a pre IH]; intros s Hnd Hpre Hpost.
  - destruct post as [|w post].
    + exists (Ok tt), s. repeat split; try reflexivity.
      intros ws Hin. now apply elem_of_nil in Hin.
    + destruct (send_json_fails w payload s Hpost) as [e He].
      exists (Raise e), s. simpl. unfold bind. rewrite He.
      repeat split; try reflexivity; eauto.
      intros ws Hin. now apply elem_of_nil in Hin.
  - simpl in Hpre. apply andb_prop in Hpre as [Ha Hpre].
    simpl in Hnd. apply NoDup_cons in Hnd as [Hfresh Hnd].
    destruct (send_json_delivers a payload s Ha) as (w & Hw & Hsend).
    set (s1 := {| _open_websockets := _open_websockets s;
                  sockets := <[a := deliver payload w]> (sockets s);
                  log := log s |}) in *.
    destruct (IH s1 Hnd) as (r & s' & Hrun & Hr & Hreg & Hlog & Hin & Hout).
    + apply forallb_forall. intros ws Hws. unfold s1.
      rewrite can_send_after_insert.
      * now apply (proj1 (forallb_forall _ _) Hpre).
      * intros ->. apply Hfresh. apply elem_of_app. left. now apply list_elem_of_In.
    + destruct post as [|w' post]; [exact I|].
      rewrite <- Hpost. apply can_send_after_insert.
      intros ->. apply Hfresh. apply elem_of_app. right. left.
    + exists r, s'. repeat split.
      * simpl. unfold bind. now rewrite Hsend.
      * exact Hr.
      * exact Hreg.
      * exact Hlog.
      * intros ws Hws. apply elem_of_cons in Hws as [-> | Hws].
        -- rewrite Hout.
           ++ simpl. rewrite lookup_insert_eq. now rewrite Hw.
           ++ intros Hin'. apply Hfresh. apply elem_of_app. now left.
        -- rewrite Hin by exact Hws. simpl.
           rewrite lookup_insert_ne; [reflexivity|].
           intros ->. apply Hfresh. apply elem_of_app. now left.
      * intros ws Hws. apply not_elem_of_cons in Hws as [Hne Hws].
        rewrite Hout by exact Hws. simpl. now rewrite lookup_insert_ne.
Qed.

(** *** Broadcast *)

(** C4, as the code has it. [reload] sends to the registered clients in
    iteration order. The clients before the first one whose send fails each
    get the reload message; at that client the broadcast raises to its
    caller, and that client and all later ones get nothing. When no send
    fails, every registered client gets the message and [reload] returns. *)
Theorem reload_delivers_until_first_failure
    (path : string) (s : server) (pre post : list nat) :
  elements (_open_websockets s) = pre ++ post ->
  forallb (can_send s) pre = true ->
  match post with [] => True | w :: _ => can_send s w = false end ->
  let '(r, s') := reload path s in
  match post with [] => r = Ok tt | _ :: _ => exists e, r = Raise e end /\
  _open_websockets s' = _open_websockets s /\
  (forall ws, ws ∈ pre ->
     sockets s' !! ws = deliver (reload_message path) <$> sockets s !! ws) /\
  (forall ws, ws ∉ pre -> sockets s' !! ws = sockets s !! ws).
Proof.
  intros Hel Hpre Hpost.
  assert (Hnd : NoDup (pre ++ post)) by (rewrite <- Hel; apply NoDup_elements).
  set (s0 := {| _open_websockets := _open_websockets s;
                sockets := sockets s;
                log := log s ++ [{| level := logging.INFO;
                                    msg := ("Reloading " ++ path)%string;
                                    args := [] |}] |}).
  destruct (send_to_each_until_failure (reload_message path) pre post s0 Hnd)
    as (r & s' & Hrun & Hr & Hreg & _ & Hin & Hout).
  - exact Hpre.
  - exact Hpost.
  - unfold reload, bind, logger. fold s0.
    change (elements (_open_websockets s0)) with (elements (_open_websockets s)).
    rewrite Hel, Hrun. auto.
Qed.

Lemma reload_delivers_until_first_failure_witness :
  let lost := {| closed := false; conn_lost := true; outbox := [] |} in
  let s := {| _open_websockets := {[1; 2; 3]};
              sockets := {[1 := new_socket; 2 := new_socket; 3 := lost]};
              log := [] |} in
  elements (_open_websockets s) = [2] ++ [3; 1] /\
  forallb (can_send s) [2] = true /\
  can_send s 3 = false /\
  let '(r, s') := reload "*" s in
  (exists e, r = Raise e) /\
  _open_websockets s' = _open_websockets s /\
  (forall ws, ws ∈ [2] ->
     sockets s' !! ws = deliver (reload_message "*") <$> sockets s !! ws) /\
  (forall ws, ws ∉ [2] -> sockets s' !! ws = sockets s !! ws).
Proof.
  cbv zeta.
  split; [vm_compute; reflexivity|].
  split; [vm_compute; reflexivity|].
  split; [vm_compute; reflexivity|].
  apply (reload_delivers_until_first_failure "*" _ [2] [3; 1]);
    vm_compute; reflexivity.
Defined.

(** C4 as stated does not hold: of three registered clients the first
    in iteration order has lost its transport; [reload] raises
    [ConnectionResetError] to its caller, and the two clients that could be
    sent to have received nothing. *)
Lemma reload_failure_not_isolated :
  let lost := {| closed := false; conn_lost := true; outbox := [] |} in
  let s := {| _open_websockets := {[1; 2; 3]};
              sockets := {[1 := new_socket; 2 := lost; 3 := new_socket]};
              log := [] |} in
  elements (_open_websockets s) = [2; 3; 1] /\
  can_send s 2 = false /\
  can_send s 3 = true /\
  can_send s 1 = true /\
  fst (reload "*" s) = Raise ConnectionResetError /\
  sockets (snd (reload "*" s)) !! 3 = Some new_socket /\
  sockets (snd (reload "*" s)) !! 1 = Some new_socket /\
  outbox new_socket = [].
Proof.
  cbv zeta. repeat split; vm_compute; reflexivity.
Qed.

(** *** Removal from the registry *)

Ltac fields := cbn [sockets _open_websockets log negb].

Lemma registry_remove_present (ws : nat) (s : server) :
  ws ∈ _open_websockets s ->
  registry_remove ws s
  = (Ok tt, {| _open_websockets := _open_websockets s ∖ {[ws]};
               sockets := sockets s;
               log := log s |}).
Proof.
  intros H. unfold registry_remove. now rewrite bool_decide_eq_true_2.
Qed.

(** [WeakSet.remove] on a member that is not there. *)
Lemma registry_remove_absent (ws : nat) (s : server) :
  ws ∉ _open_websockets s -> registry_remove ws s = (Raise KeyError, s).
Proof.
  intros H. unfold registry_remove. now rewrite bool_decide_eq_false_2.
Qed.

Lemma close_socket_closed (w : WebSocketResponse) :
  closed w = true -> close_socket w = w.
Proof. destruct w as [c l o]. simpl. now intros ->. Qed.

Lemma alter_close_unchanged (ws : nat) (socks : gmap nat WebSocketResponse) :
  match socks !! ws with Some w => closed w = true | None => True end ->
  alter close_socket ws socks = socks.
Proof.
  intros H. apply map_eq. intros i. rewrite lookup_alter.
  case_decide; [subst i|reflexivity].
  destruct (socks !! ws) as [w|]; [|reflexivity].
  simpl. now rewrite close_socket_closed.
Qed.

(** The [finally] block never raises: it leaves the registry without the
    client and the client's websocket closed. *)
Lemma cleanup_result (ws : nat) (s : server) :
  cleanup ws s
  = (Ok tt, {| _open_websockets := _open_websockets s ∖ {[ws]};
               sockets := alter close_socket ws (sockets s);
               log := log s |}).
Proof.
  destruct s as [reg socks lg].
  unfold cleanup, bind, registry_contains, registry_remove, ws_closed, ws_close, ret.
  fields.
  destruct (decide (ws ∈ reg)) as [Hmem | Hmem].
  - rewrite (bool_decide_eq_true_2 _ Hmem). fields.
    rewrite (bool_decide_eq_true_2 _ Hmem). fields.
    destruct (socks !! ws) as [w|] eqn:Hw; [destruct (closed w) eqn:Hc|]; fields;
      try reflexivity.
    rewrite alter_close_unchanged; [reflexivity | now rewrite Hw].
  - rewrite (bool_decide_eq_false_2 _ Hmem). fields.
    replace (reg ∖ {[ws]}) with reg by set_solver.
    destruct (socks !! ws) as [w|] eqn:Hw; [destruct (closed w) eqn:Hc|]; fields;
      try reflexivity.
    rewrite alter_close_unchanged; [reflexivity | now rewrite Hw].
Qed.

(** The guarded removal of the [finally] block is idempotent: run again, it
    changes nothing and does not raise. *)
Lemma cleanup_idempotent (ws : nat) (s : server) :
  exists s',
    cleanup ws s = (Ok tt, s') /\
    (ws ∉ _open_websockets s') /\
    cleanup ws s' = (Ok tt, s').
Proof.
  eexists. split; [apply cleanup_result|]. fields.
  split; [set_solver|].
  rewrite cleanup_result. fields.
  replace (_open_websockets s ∖ {[ws]} ∖ {[ws]}) with (_open_websockets s ∖ {[ws]})
    by set_solver.
  rewrite (alter_close_unchanged ws (alter close_socket ws (sockets s))); [reflexivity|].
  rewrite lookup_alter_eq. now destruct (sockets s !! ws).
Qed.

(** C6. A registry that does not hold client [1] (here: [_on_shutdown] has
    popped it between two messages of its connection): handling an ERROR or
    a CLOSE message calls [remove] on the absent client and raises
    [KeyError], which leaves the handler through its [finally] block; the
    guarded removal of that block, in the same state, returns normally. *)
Theorem remove_of_absent_client_raises :
  let error := {| type := WSMsgType.ERROR; data := "" |} in
  let close := {| type := WSMsgType.CLOSE; data := "" |} in
  let s := {| _open_websockets := {[2]};
              sockets := {[1 := new_socket; 2 := new_socket]};
              log := [] |} in
  let started := {| _open_websockets := ∅; sockets := ∅; log := [] |} in
  (1 ∉ _open_websockets s) /\
  fst (registry_remove 1 s) = Raise KeyError /\
  fst (on_message MiniJson.loads 1 error s) = Raise KeyError /\
  fst (on_message MiniJson.loads 1 close s) = Raise KeyError /\
  fst (connection_loop MiniJson.loads 1 [error] s) = Raise KeyError /\
  fst (cleanup 1 s) = Ok tt /\
  fst ((ws_prepare 1 ;; registry_add 1 ;; _on_shutdown ;;
        connection_loop MiniJson.loads 1 [error]) started) = Raise KeyError.
Proof.
  cbv zeta. split; [set_solver|].
  repeat split; vm_compute; reflexivity.
Qed.

(** *** The protocol handler *)

(** C7, as the code has it. A text message on which the decoder raises.
    When it raises [JSONDecodeError], the handler returns normally, having
    logged one error record; the registry and every websocket (its outbox,
    its [closed] flag) are as before, and the connection's loop goes on to
    the messages that follow. When it raises anything else, the handler
    logs nothing and raises the same exception; the connection's
    [try ... finally] ends with it, the messages that follow are not
    handled, the client is out of the registry and its websocket is
    closed. *)
Theorem undecodable_message_logged_or_raised
    (loads : string -> result json) (ws : nat) (message : WSMessage)
    (rest : list WSMessage) (s : server) (e : exn) :
  type message = WSMsgType.TEXT ->
  loads (data message) = Raise e ->
  let '(r, s') := on_message loads ws message s in
  match e with
  | JSONDecodeError =>
      r = Ok tt /\
      _open_websockets s' = _open_websockets s /\
      sockets s' = sockets s /\
      log s' = log s ++ [non_json_record message] /\
      async_for loads ws (message :: rest) s = async_for loads ws rest s'
  | _ =>
      r = Raise e /\
      s' = s /\
      let '(r2, s2) := connection_loop loads ws (message :: rest) s in
      r2 = Raise e /\
      (ws ∉ _open_websockets s2) /\
      sockets s2 = alter close_socket ws (sockets s) /\
      log s2 = log s
  end.
Proof.
  intros Htype Hraise.
  assert (Hcaught : e = JSONDecodeError ->
            on_message loads ws message s
            = (Ok tt, {| _open_websockets := _open_websockets s;
                         sockets := sockets s;
                         log := log s ++ [non_json_record message] |})).
  { intros ->. unfold on_message, _on_websocket_client_message.
    now rewrite Htype, Hraise. }
  assert (Hescapes : e <> JSONDecodeError ->
            on_message loads ws message s = (Raise e, s)).
  { intros Hne. unfold on_message, _on_websocket_client_message.
    rewrite Htype, Hraise. destruct e; try reflexivity. congruence. }
  assert (Hloop : e <> JSONDecodeError ->
            connection_loop loads ws (message :: rest) s
            = (Raise e, {| _open_websockets := _open_websockets s ∖ {[ws]};
                           sockets := alter close_socket ws (sockets s);
                           log := log s |})).
  { intros Hne. unfold connection_loop, try_finally. cbn [async_for].
    unfold bind at 1. rewrite (Hescapes Hne), cleanup_result. reflexivity. }
  destruct e;
    try (rewrite Hescapes, Hloop by discriminate;
         split; [reflexivity|]; split; [reflexivity|]; split; [reflexivity|];
         split; [fields; set_solver|]; split; reflexivity).
  rewrite (Hcaught eq_refl). repeat split.
  cbn [async_for]. unfold bind at 1. now rewrite (Hcaught eq_refl).
Qed.

Lemma undecodable_message_logged_or_raised_witness :
  let message := {| type := WSMsgType.TEXT; data := "not json" |} in
  let rest := [{| type := WSMsgType.TEXT; data := "{}" |}] in
  let s := {| _open_websockets := {[1]};
              sockets := {[1 := new_socket]};
              log := [] |} in
  type message = WSMsgType.TEXT /\
  MiniJson.loads (data message) = Raise JSONDecodeError /\
  let '(r, s') := on_message MiniJson.loads 1 message s in
  r = Ok tt /\
  _open_websockets s' = _open_websockets s /\
  sockets s' = sockets s /\
  log s' = log s ++ [non_json_record message] /\
  async_for MiniJson.loads 1 (message :: rest) s = async_for MiniJson.loads 1 rest s'.
Proof.
  cbv zeta.
  split; [reflexivity|].
  split; [vm_compute; reflexivity|].
  apply (undecodable_message_logged_or_raised MiniJson.loads 1
           {| type := WSMsgType.TEXT; data := "not json" |} _ _ JSONDecodeError).
  - reflexivity.
  - vm_compute. reflexivity.
Defined.

(** C7 as stated does not hold: a text message that is one integer of
    4301 digits fails to decode with [ValueError], which the handler does
    not catch. Nothing is logged, the exception leaves the handler, and
    the connection ends with the client deregistered and its websocket
    closed. *)
Lemma oversized_integer_message_ends_connection :
  let message := {| type := WSMsgType.TEXT; data := MiniJson.nines 4301 |} in
  let s := {| _open_websockets := {[1]};
              sockets := {[1 := new_socket]};
              log := [] |} in
  MiniJson.loads (data message) = Raise ValueError /\
  on_message MiniJson.loads 1 message s = (Raise ValueError, s) /\
  fst (connection_loop MiniJson.loads 1 [message] s) = Raise ValueError /\
  log (snd (connection_loop MiniJson.loads 1 [message] s)) = [] /\
  elements (_open_websockets (snd (connection_loop MiniJson.loads 1 [message] s))) = [] /\
  sockets (snd (connection_loop MiniJson.loads 1 [message] s)) !! 1
  = Some {| closed := true; conn_lost := false; outbox := [] |}.
Proof.
  cbv zeta.
  assert (Hloads : MiniJson.loads (MiniJson.nines 4301) = Raise ValueError)
    by (vm_compute; reflexivity).
  assert (Hrun : forall s0, on_message MiniJson.loads 1
            {| type := WSMsgType.TEXT; data := MiniJson.nines 4301 |} s0
            = (Raise ValueError, s0)).
  { intros s0. unfold on_message, _on_websocket_client_message.
    cbn [type data]. now rewrite Hloads. }
  split; [exact Hloads|]. split; [apply Hrun|].
  unfold connection_loop, try_finally. cbn [async_for]. unfold bind at 1.
  rewrite Hrun, cleanup_result.
  repeat split; vm_compute; reflexivity.
Qed.

(** Which decoded values make [data["command"]] raise: every value that is
    not an object holding the key. *)
Lemma subscript_without_command (value : json) :
  (forall items, value = JDict items -> dict_lookup "command" items = None) ->
  exists e, (e = KeyError \/ e = TypeError) /\ subscript value "command" = Raise e.
Proof.
  intros H. destruct value; try (exists TypeError; split; [now right | reflexivity]).
  exists KeyError. split; [now left|]. simpl. now rewrite (H items eq_refl).
Qed.

(** C8. A text message that decodes to a value without a ["command"] entry
    (an object lacking the key, or no object at all): the handler raises
    [KeyError] or [TypeError] and logs nothing; the connection's function
    leaves through its [finally] block with that exception, the messages
    that follow are not handled, the client is out of the registry and its
    websocket is closed. *)
Theorem message_without_command_ends_connection
    (loads : string -> result json) (ws : nat) (message : WSMessage)
    (rest : list WSMessage) (s : server) (value : json) :
  type message = WSMsgType.TEXT ->
  loads (data message) = Ok value ->
  (forall items, value = JDict items -> dict_lookup "command" items = None) ->
  exists e,
    (e = KeyError \/ e = TypeError) /\
    _on_websocket_client_message loads ws message s = (Raise e, s) /\
    let '(r, s') := _get_livereload_socket loads ws (message :: rest) s in
    r = Raise e /\
    (ws ∉ _open_websockets s') /\
    sockets s' !! ws = Some (close_socket new_socket) /\
    (forall other, other <> ws -> sockets s' !! other = sockets s !! other) /\
    log s' = log s.
Proof.
  intros Htype Hsome Hvalue.
  destruct (subscript_without_command value Hvalue) as (e & He & Hsub).
  exists e. split; [exact He|].
  assert (Hmsg : forall s0, _on_websocket_client_message loads ws message s0 = (Raise e, s0)).
  { intros s0. unfold _on_websocket_client_message. now rewrite Hsome, Hsub. }
  split; [apply Hmsg|].
  unfold _get_livereload_socket, connection_loop, try_finally, bind at 1 2 3.
  unfold ws_prepare at 1. unfold registry_add at 1.
  cbn [async_for]. unfold bind at 1. unfold on_message at 1.
  rewrite Htype, Hmsg, cleanup_result. fields.
  split; [reflexivity|]. split; [set_solver|]. split; [|split].
  - now rewrite lookup_alter_eq, lookup_insert_eq.
  - intros other Hne. rewrite lookup_alter_ne, lookup_insert_ne by congruence.
    reflexivity.
  - reflexivity.
Qed.

Lemma message_without_command_ends_connection_witness :
  let message := {| type := WSMsgType.TEXT; data := "{}" |} in
  let rest := [{| type := WSMsgType.TEXT; data := "[]" |}] in
  let s := {| _open_websockets := {[2]};
              sockets := {[2 := new_socket]};
              log := [] |} in
  type message = WSMsgType.TEXT /\
  MiniJson.loads (data message) = Ok (JDict []) /\
  (forall items, JDict [] = JDict items -> dict_lookup "command" items = None) /\
  exists e,
    (e = KeyError \/ e = TypeError) /\
    _on_websocket_client_message MiniJson.loads 1 message s = (Raise e, s) /\
    let '(r, s') := _get_livereload_socket MiniJson.loads 1 (message :: rest) s in
    r = Raise e /\
    (1 ∉ _open_websockets s') /\
    sockets s' !! 1 = Some (close_socket new_socket) /\
    (forall other, other <> 1 -> sockets s' !! other = sockets s !! other) /\
    log s' = log s.
Proof.
  cbv zeta.
  split; [reflexivity|].
  split; [vm_compute; reflexivity|].
  split; [intros items H; injection H as <-; reflexivity|].
  apply (message_without_command_ends_connection MiniJson.loads 1
           {| type := WSMsgType.TEXT; data := "{}" |} _ _ (JDict [])).
  - reflexivity.
  - vm_compute. reflexivity.
  - intros items H. injection H as <-. reflexivity.
Defined.

(** C9. A text message that decodes to an object whose ["command"] is
    ["hello"], from a client whose websocket is open: the handler sends
    that client one message, the acknowledgement, and nothing else; no other
    websocket changes, nothing is logged. The acknowledgement's command is
    ["hello"], its protocols are the one supported protocol, and its server
    name is not empty. *)
Theorem hello_is_acknowledged_once
    (loads : string -> result json) (ws : nat) (message : WSMessage)
    (s : server) (value : json) (w : WebSocketResponse) :
  type message = WSMsgType.TEXT ->
  loads (data message) = Ok value ->
  subscript value "command" = Ok (JStr "hello") ->
  sockets s !! ws = Some w ->
  closed w = false ->
  conn_lost w = false ->
  let '(r, s') := on_message loads ws message s in
  r = Ok tt /\
  sockets s' = <[ws := deliver hello_message w]> (sockets s) /\
  outbox (deliver hello_message w) = outbox w ++ [hello_message] /\
  _open_websockets s' = _open_websockets s /\
  log s' = log s /\
  exists name,
    hello_message
    = JDict [("command", JStr "hello");
             ("protocols", JList [JStr SUPPORTED_PROTOCOL]);
             ("serverName", JStr name)]%string /\
    name <> EmptyString.
Proof.
  intros Htype Hsome Hcommand Hw Hclosed Hlost.
  unfold on_message, _on_websocket_client_message, send_json.
  rewrite Htype, Hsome, Hcommand.
  change (eq_str (JStr "hello") "hello") with true. cbv iota beta.
  rewrite Hw, Hclosed, Hlost. cbn [orb]. fields.
  repeat split.
  exists "python-livereload_server"%string. split; [reflexivity | discriminate].
Qed.

Lemma hello_is_acknowledged_once_witness :
  let message :=
    {| type := WSMsgType.TEXT;
       data := join ["{"; dq; "command"; dq; ":"; dq; "hello"; dq; ",";
                     dq; "protocols"; dq; ":["; dq; SUPPORTED_PROTOCOL; dq; "]}"] |} in
  let value := JDict [("command", JStr "hello");
                      ("protocols", JList [JStr SUPPORTED_PROTOCOL])]%string in
  let s := {| _open_websockets := {[1; 2]};
              sockets := {[1 := new_socket; 2 := new_socket]};
              log := [] |} in
  type message = WSMsgType.TEXT /\
  MiniJson.loads (data message) = Ok value /\
  subscript value "command" = Ok (JStr "hello") /\
  sockets s !! 1 = Some new_socket /\
  closed new_socket = false /\
  conn_lost new_socket = false /\
  let '(r, s') := on_message MiniJson.loads 1 message s in
  r = Ok tt /\
  sockets s' = <[1 := deliver hello_message new_socket]> (sockets s) /\
  outbox (deliver hello_message new_socket) = outbox new_socket ++ [hello_message] /\
  _open_websockets s' = _open_websockets s /\
  log s' = log s /\
  exists name,
    hello_message
    = JDict [("command", JStr "hello");
             ("protocols", JList [JStr SUPPORTED_PROTOCOL]);
             ("serverName", JStr name)]%string /\
    name <> EmptyString.
Proof.
  cbv zeta.
  split; [reflexivity|].
  split; [vm_compute; reflexivity|].
  split; [reflexivity|].
  split; [vm_compute; reflexivity|].
  split; [reflexivity|].
  split; [reflexivity|].
  apply (hello_is_acknowledged_once MiniJson.loads 1 _ _
           (JDict [("command", JStr "hello");
                   ("protocols", JList [JStr SUPPORTED_PROTOCOL])]%string)
           new_socket);
    vm_compute; reflexivity.
Defined.

End LiveReloadFacts.

(** ** The static file handler *)

Module StaticFacts.
Import Py Effects Static.

(** C10. A request whose path resolves, after the [index.html] fallback, to
    something that is not a file: the handler returns a 404 response whose
    text is made of the requested path and the resolved file-system path,
    having logged the request only; the response is a whole-body one, so
    no byte has been streamed. *)
Theorem missing_file_is_404 {Path : Type} `{Host Path}
    (_path_to_serve : Path) (port : Z) (request : Request) :
  is_file (resolve _path_to_serve request) = false ->
  let text :=
    ("Not found! " ++ path request ++ " (file: "
       ++ path_str (resolve _path_to_serve request) ++ ")")%string in
  _get_static_file _path_to_serve port request
  = ([(logging.INFO, "Serving %s"%string, [path request])],
     inl (Response 404 text)) /\
  streamed (Response (Path := Path) 404 text) = [].
Proof.
  intros Hmissing. cbv zeta. split; [|reflexivity].
  unfold _get_static_file. rewrite Hmissing. reflexivity.
Qed.

Lemma missing_file_is_404_witness :
  let fs := [("/srv", Posix.Directory); ("/srv/docs", Posix.Directory)]%string in
  let root := Posix.parse "/srv" in
  let request := {| path := "/missing.txt" |} in
  @is_file _ (Posix.host fs) (@resolve _ (Posix.host fs) root request) = false /\
  @_get_static_file _ (Posix.host fs) root 8000 request
  = ([(logging.INFO, "Serving %s"%string, ["/missing.txt"%string])],
     inl (Response 404 "Not found! /missing.txt (file: /srv/missing.txt)")) /\
  streamed (Response (Path := Posix.PurePosixPath) 404
              "Not found! /missing.txt (file: /srv/missing.txt)") = [].
Proof.
  cbv zeta. split; [vm_compute; reflexivity|].
  apply (@missing_file_is_404 _
           (Posix.host [("/srv", Posix.Directory); ("/srv/docs", Posix.Directory)]%string)
           (Posix.parse "/srv") 8000 {| path := "/missing.txt" |}).
  vm_compute. reflexivity.
Defined.

End StaticFacts.

(** ** More on the streaming rewriter *)

Module RewriterProperties.
Import Py Rewriter Searching RewriterFacts.

(** *** [find], [in] and [partition] *)

Lemma find_startswith (sub s : bytes) (i : nat) :
  find sub s = Some i -> startswith sub (skipn i s) = true.
Proof.
  revert i. induction s as [|y s IH]; intros i H.
  - simpl in H. destruct (startswith sub []) eqn:E; [|discriminate].
    injection H as <-. exact E.
  - simpl in H. destruct (startswith sub (y :: s)) eqn:E.
    + injection H as <-. exact E.
    + destruct (find sub s) as [j|] eqn:F; [|discriminate].
      injection H as <-. simpl. now apply IH.
Qed.

Lemma find_first (sub s : bytes) (i j : nat) :
  find sub s = Some i -> j < i -> startswith sub (skipn j s) = false.
Proof.
  revert i j. induction s as [|y s IH]; intros i j H Hlt.
  - simpl in H. destruct (startswith sub []); [|discriminate].
    injection H as <-. lia.
  - simpl in H. destruct (startswith sub (y :: s)) eqn:E.
    + injection H as <-. lia.
    + destruct (find sub s) as [i'|] eqn:F; [|discriminate].
      injection H as <-. destruct j as [|j]; [exact E|].
      simpl. apply (IH i'); [reflexivity | lia].
Qed.

Lemma find_skipn (sub s : bytes) (i : nat) :
  find sub s = Some i -> skipn i s = sub ++ skipn (i + length sub) s.
Proof.
  intros H. rewrite (startswith_app sub (skipn i s)) at 1 by now apply find_startswith.
  rewrite drop_drop. reflexivity.
Qed.

Lemma contains_app_r (sub p s : bytes) :
  contains sub s = true -> contains sub (p ++ s) = true.
Proof.
  intros H. induction p as [|x p IH]; [exact H|].
  unfold contains in *. simpl.
  destruct (startswith sub (x :: p ++ s)); [reflexivity|].
  destruct (find sub (p ++ s)); [reflexivity | discriminate].
Qed.

(** *** Reads *)

Lemma file_reads_one_chunk (size : nat) (f : bytes) :
  f <> [] -> length f <= size -> file_reads (length f) size f = [f].
Proof.
  intros Hne Hlen. destruct f as [|x f]; [congruence|].
  cbn [length file_reads].
  rewrite firstn_all2 by exact Hlen.
  rewrite skipn_all2 by exact Hlen.
  now destruct (length f).
Qed.

Lemma file_reads_nonempty (fuel size : nat) (f : bytes) :
  0 < size -> Forall (fun chunk => chunk <> []) (file_reads fuel size f).
Proof.
  intros Hsize. revert f. induction fuel as [|fuel IH]; intros f.
  - destruct f; constructor.
  - destruct f as [|x f]; [constructor|].
    cbn [file_reads]. constructor; [|apply IH].
    destruct size; [lia | discriminate].
Qed.

Lemma file_reads_zero (fuel : nat) (f : bytes) (script : bytes) (st : rewriter) :
  while_chunk script (file_reads fuel 0 f) st = st.
Proof.
  destruct fuel, f; reflexivity.
Qed.

(** *** The loop *)

Lemma while_chunk_cons (script chunk : bytes) (reads : list bytes) (st : rewriter) :
  chunk <> [] ->
  while_chunk script (chunk :: reads) st
  = while_chunk script reads (loop_body script st chunk).
Proof. intros H. destruct chunk; [congruence | reflexivity]. Qed.

(** After the script has been written, the loop writes each chunk as it
    comes. *)
Lemma while_chunk_pass_through (script : bytes) (chunks : list bytes) (st : rewriter) :
  wrote_injected_script st = true ->
  Forall (fun chunk => chunk <> []) chunks ->
  wrote_injected_script (while_chunk script chunks st) = true /\
  written (while_chunk script chunks st) = written st ++ chunks.
Proof.
  intros Hw Hne. revert st Hw.
  induction Hne as [|chunk chunks Hchunk Hne IH]; intros st Hw.
  - split; [exact Hw | now rewrite app_nil_r].
  - rewrite while_chunk_cons by exact Hchunk.
    destruct (loop_body_after_injection script st chunk Hw) as [Hw' Hwritten].
    destruct (IH _ Hw') as [Hflag Hrest].
    split; [exact Hflag|].
    rewrite Hrest, Hwritten, <- app_assoc. reflexivity.
Qed.

Lemma while_chunk_searching (chunks : list bytes) (e : bytes) (w : list bytes) :
  Forall (fun chunk => chunk <> []) chunks ->
  (forall script,
     wrote_injected_script (while_chunk script chunks (Rewriter false e w)) = false /\
     written (while_chunk script chunks (Rewriter false e w)) = w) \/
  (exists k chunk before head_tag after,
     chunks !! k = Some chunk /\
     partition HEAD chunk = (before, head_tag, after) /\
     forall script,
       wrote_injected_script (while_chunk script chunks (Rewriter false e w)) = true /\
       written (while_chunk script chunks (Rewriter false e w))
       = w ++ [before; script; head_tag; after] ++ drop (S k) chunks).
Proof.
  intros Hne. revert e.
  induction Hne as [|chunk chunks Hchunk Hne IH]; intros e.
  - left. intros script. split; reflexivity.
  - destruct (contains HEAD (e ++ chunk) || contains BODY (e ++ chunk)) eqn:D.
    + right. destruct (partition HEAD chunk) as [[before head_tag] after] eqn:P.
      exists 0, chunk, before, head_tag, after.
      split; [reflexivity|]. split; [exact P|].
      intros script. rewrite while_chunk_cons by exact Hchunk.
      assert (Hbody : loop_body script (Rewriter false e w) chunk
                      = Rewriter true (slice_until_neg 8 chunk)
                          (w ++ [before; script; head_tag; after])).
      { unfold loop_body. simpl. rewrite D, P. reflexivity. }
      rewrite Hbody.
      destruct (while_chunk_pass_through script chunks
                  (Rewriter true (slice_until_neg 8 chunk)
                     (w ++ [before; script; head_tag; after])) eq_refl Hne)
        as [Hflag Hwritten].
      split; [exact Hflag|].
      rewrite Hwritten. simpl. now rewrite <- app_assoc.
    + assert (Hbody : forall script,
                loop_body script (Rewriter false e w) chunk
                = Rewriter false (slice_until_neg 8 chunk) w).
      { intros script. unfold loop_body. simpl. now rewrite D. }
      destruct (IH (slice_until_neg 8 chunk))
        as [Hnone | (k & c & before & head_tag & after & Hk & P & Hsome)].
      * left. intros script.
        rewrite while_chunk_cons by exact Hchunk. rewrite Hbody. apply Hnone.
      * right. exists (S k), c, before, head_tag, after.
        split; [exact Hk|]. split; [exact P|].
        intros script.
        rewrite while_chunk_cons by exact Hchunk. rewrite Hbody. apply Hsome.
Qed.

(** *** What a response is made of *)

(** The shape of the writes for reads that are not empty: the script alone,
    or one read cut in parts around the script and followed by the later
    reads. *)
Lemma stream_reads_shape (chunks : list bytes) :
  Forall (fun chunk => chunk <> []) chunks ->
  (forall script, stream_reads script chunks = [script]) \/
  (exists k chunk before head_tag after,
     chunks !! k = Some chunk /\
     before ++ head_tag ++ after = chunk /\
     forall script,
       stream_reads script chunks
       = [before; script; head_tag; after] ++ drop (S k) chunks).
Proof.
  intros Hne.
  destruct (while_chunk_searching chunks [] [] Hne)
    as [Hnone | (k & chunk & before & head_tag & after & Hk & P & Hsome)].
  - left. intros script. unfold stream_reads.
    destruct (Hnone script) as [Hflag Hwritten].
    change initial with (Rewriter false [] []). now rewrite Hflag, Hwritten.
  - right. exists k, chunk, before, head_tag, after.
    split; [exact Hk|]. split.
    + pose proof (partition_join HEAD chunk) as J. now rewrite P in J.
    + intros script. unfold stream_reads.
      destruct (Hsome script) as [Hflag Hwritten].
      change initial with (Rewriter false [] []). now rewrite Hflag, Hwritten.
Qed.

Lemma while_chunk_first_seen (chunks : list bytes) (e : bytes) (w : list bytes) :
  Forall (fun chunk => chunk <> []) chunks ->
  ((forall k, k < length chunks -> marker_seen e chunks k = false) /\
   forall script,
     wrote_injected_script (while_chunk script chunks (Rewriter false e w)) = false /\
     written (while_chunk script chunks (Rewriter false e w)) = w) \/
  (exists k chunk,
     chunks !! k = Some chunk /\
     marker_seen e chunks k = true /\
     (forall j, j < k -> marker_seen e chunks j = false) /\
     let '(before, head_tag, after) := partition HEAD chunk in
     forall script,
       wrote_injected_script (while_chunk script chunks (Rewriter false e w)) = true /\
       written (while_chunk script chunks (Rewriter false e w))
       = w ++ [before; script; head_tag; after] ++ drop (S k) chunks).
Proof.
  intros Hne. revert e.
  induction Hne as [|chunk chunks Hchunk Hne IH]; intros e.
  - left. split; [intros k Hk; simpl in Hk; lia|]. intros script. now split.
  - destruct (marker_seen e (chunk :: chunks) 0) eqn:D.
    + right. exists 0, chunk.
      split; [reflexivity|]. split; [exact D|]. split; [intros j Hj; lia|].
      destruct (partition HEAD chunk) as [[before head_tag] after] eqn:P.
      intros script. rewrite while_chunk_cons by exact Hchunk.
      assert (Hbody : loop_body script (Rewriter false e w) chunk
                      = Rewriter true (slice_until_neg 8 chunk)
                          (w ++ [before; script; head_tag; after])).
      { unfold loop_body. unfold marker_seen in D. cbn [search_space] in D.
        simpl. rewrite D, P. reflexivity. }
      rewrite Hbody.
      destruct (while_chunk_pass_through script chunks
                  (Rewriter true (slice_until_neg 8 chunk)
                     (w ++ [before; script; head_tag; after])) eq_refl Hne)
        as [Hflag Hwritten].
      split; [exact Hflag|].
      rewrite Hwritten. simpl. now rewrite <- app_assoc.
    + assert (Hbody : forall script,
                loop_body script (Rewriter false e w) chunk
                = Rewriter false (slice_until_neg 8 chunk) w).
      { intros script. unfold loop_body. unfold marker_seen in D.
        cbn [search_space] in D. simpl. now rewrite D. }
      destruct (IH (slice_until_neg 8 chunk))
        as [[Hnone Hrun] | (k & c & Hk & Hseen & Hfirst & Hsome)].
      * left. split.
        -- intros [|k] Hk; [exact D|]. apply Hnone. simpl in Hk. lia.
        -- intros script.
           rewrite while_chunk_cons by exact Hchunk. rewrite Hbody. apply Hrun.
      * right. exists (S k), c.
        split; [exact Hk|]. split; [exact Hseen|]. split.
        -- intros [|j] Hj; [exact D|]. apply Hfirst. lia.
        -- destruct (partition HEAD c) as [[before head_tag] after].
           intros script.
           rewrite while_chunk_cons by exact Hchunk. rewrite Hbody. apply Hsome.
Qed.

(** X1. Reads that are not empty. If the search space of no read (the read
    before it without its last eight bytes, followed by the read) holds a
    marker, the only write is the script. Otherwise let [k] be the first
    read whose search space holds a marker: the writes are the three parts
    that [partition(b"</head>")] makes of read [k], with the script after
    the first, followed by every later read as it came. No read before
    [k] is written, and the script is written once. *)
Theorem script_at_first_seen_marker (chunks : list bytes) :
  Forall (fun chunk => chunk <> []) chunks ->
  ((forall k, k < length chunks -> marker_seen [] chunks k = false) /\
   forall script, stream_reads script chunks = [script]) \/
  (exists k chunk,
     chunks !! k = Some chunk /\
     marker_seen [] chunks k = true /\
     (forall j, j < k -> marker_seen [] chunks j = false) /\
     let '(before, head_tag, after) := partition HEAD chunk in
     forall script,
       stream_reads script chunks
       = [before; script; head_tag; after] ++ drop (S k) chunks).
Proof.
  intros Hne.
  destruct (while_chunk_first_seen chunks [] [] Hne)
    as [[Hnone Hrun] | (k & chunk & Hk & Hseen & Hfirst & Hsome)].
  - left. split; [exact Hnone|]. intros script. unfold stream_reads.
    destruct (Hrun script) as [Hflag Hwritten].
    change initial with (Rewriter false [] []). now rewrite Hflag, Hwritten.
  - right. exists k, chunk.
    split; [exact Hk|]. split; [exact Hseen|]. split; [exact Hfirst|].
    destruct (partition HEAD chunk) as [[before head_tag] after].
    intros script. unfold stream_reads.
    destruct (Hsome script) as [Hflag Hwritten].
    change initial with (Rewriter false [] []). now rewrite Hflag, Hwritten.
Qed.

Lemma script_at_first_seen_marker_witness :
  let chunks := [b "<html>"; b "<head></head><body>"; b "</body></html>"] in
  Forall (fun chunk => chunk <> []) chunks /\
  (((forall k, k < length chunks -> marker_seen [] chunks k = false) /\
    forall script, stream_reads script chunks = [script]) \/
   (exists k chunk,
      chunks !! k = Some chunk /\
      marker_seen [] chunks k = true /\
      (forall j, j < k -> marker_seen [] chunks j = false) /\
      let '(before, head_tag, after) := partition HEAD chunk in
      forall script,
        stream_reads script chunks
        = [before; script; head_tag; after] ++ drop (S k) chunks)).
Proof.
  cbv zeta.
  split; [repeat constructor; discriminate|].
  apply (script_at_first_seen_marker
           [b "<html>"; b "<head></head><body>"; b "</body></html>"]).
  repeat constructor; discriminate.
Defined.

(** X2. For every file and every read size, the response body is a suffix
    of the file with the script inserted once: the bytes next to the script
    are the file's, in order, and only a leading part of the file can be
    missing. *)
Theorem response_is_script_in_file_suffix (size : nat) (f : bytes) :
  exists before after n,
    (forall script, stream_file size script f = before ++ script ++ after) /\
    before ++ after = drop n f.
Proof.
  destruct size as [|size].
  - exists [], [], (length f). split; [|now rewrite drop_all].
    intros script. unfold stream_file, stream_reads.
    rewrite file_reads_zero. reflexivity.
  - assert (Hne := file_reads_nonempty (length f) (S size) f ltac:(lia)).
    assert (Hcover := file_reads_cover (S size) f ltac:(lia)).
    set (chunks := file_reads (length f) (S size) f) in *.
    destruct (stream_reads_shape chunks Hne)
      as [Hnone | (k & chunk & before & head_tag & after & Hk & J & Hsome)].
    + exists [], [], (length f). split; [|now rewrite drop_all].
      intros script. unfold stream_file. fold chunks. rewrite Hnone.
      simpl. now rewrite app_nil_r.
    + exists before, (head_tag ++ after ++ concat (drop (S k) chunks)),
        (length (concat (take k chunks))).
      split.
      * intros script. unfold stream_file. fold chunks. rewrite Hsome.
        reflexivity.
      * rewrite <- Hcover.
        replace (concat chunks) with (concat (take k chunks) ++ concat (drop k chunks))
          by (now rewrite <- concat_app, take_drop).
        rewrite drop_app_length.
        rewrite (drop_S chunks chunk k Hk). simpl.
        rewrite <- J, <- !app_assoc. reflexivity.
Qed.

(** X3. A file that fits in one read and holds [</head>]: the script is
    written immediately before the first [</head>] and every byte of the
    file is kept, in order. *)
Theorem head_in_small_file (size : nat) (script f : bytes) (i : nat) :
  length f <= size ->
  find HEAD f = Some i ->
  stream_file size script f = take i f ++ script ++ drop i f /\
  startswith HEAD (drop i f) = true /\
  (forall j, j < i -> startswith HEAD (drop j f) = false).
Proof.
  intros Hlen F.
  assert (Hne : f <> []) by (intros ->; vm_compute in F; discriminate).
  split; [|split].
  - unfold stream_file. rewrite file_reads_one_chunk by assumption.
    fold (stream_body script [f]). rewrite (head_in_one_chunk script f i F).
    now rewrite (find_skipn HEAD f i F).
  - now apply find_startswith.
  - intros j Hj. now apply (find_first HEAD f i j).
Qed.

Lemma head_in_small_file_witness :
  let f := b "<html><head><title>t</title></head><body></body></html>" in
  let script := b (_script_to_inject 8000) in
  length f <= CHUNK_SIZE /\
  find HEAD f = Some 28 /\
  stream_file CHUNK_SIZE script f = take 28 f ++ script ++ drop 28 f /\
  startswith HEAD (drop 28 f) = true /\
  (forall j, j < 28 -> startswith HEAD (drop j f) = false).
Proof.
  cbv zeta.
  split; [apply Nat.leb_le; vm_compute; reflexivity|].
  split; [vm_compute; reflexivity|].
  apply (head_in_small_file CHUNK_SIZE).
  - apply Nat.leb_le. vm_compute. reflexivity.
  - vm_compute. reflexivity.
Defined.

Lemma contains_false_find (sub s : bytes) :
  contains sub s = false -> find sub s = None.
Proof. unfold contains. now destruct (find sub s). Qed.

(** X4. A file that fits in one read and holds [</body>] but no
    [</head>]: the whole file is written first and the script after it. *)
Theorem body_only_small_file (size : nat) (script f : bytes) :
  length f <= size ->
  contains HEAD f = false ->
  contains BODY f = true ->
  stream_file size script f = f ++ script.
Proof.
  intros Hlen Hhead Hbody.
  assert (Hne : f <> []) by (intros ->; vm_compute in Hbody; discriminate).
  unfold stream_file. rewrite file_reads_one_chunk by assumption.
  unfold stream_reads. rewrite while_chunk_cons by exact Hne.
  unfold loop_body, partition. simpl.
  rewrite Hhead, Hbody, (contains_false_find _ _ Hhead). simpl.
  now rewrite !app_nil_r.
Qed.

Lemma body_only_small_file_witness :
  let f := b "<html><body><p>hi</p></body></html>" in
  let script := b (_script_to_inject 8000) in
  length f <= CHUNK_SIZE /\
  contains HEAD f = false /\
  contains BODY f = true /\
  stream_file CHUNK_SIZE script f = f ++ script.
Proof.
  cbv zeta.
  split; [apply Nat.leb_le; vm_compute; reflexivity|].
  split; [vm_compute; reflexivity|].
  split; [vm_compute; reflexivity|].
  apply (body_only_small_file CHUNK_SIZE).
  - apply Nat.leb_le. vm_compute. reflexivity.
  - vm_compute. reflexivity.
  - vm_compute. reflexivity.
Defined.

(** X5. A file that fits in one read and holds neither marker (the empty
    file included): none of it is written, the response is the script. *)
Theorem unmarked_small_file (size : nat) (script f : bytes) :
  length f <= size ->
  contains HEAD f = false ->
  contains BODY f = false ->
  stream_file size script f = script.
Proof.
  intros Hlen Hhead Hbody. unfold stream_file.
  destruct f as [|x f]; [simpl; now rewrite app_nil_r|].
  rewrite file_reads_one_chunk by (assumption || discriminate).
  unfold stream_reads. rewrite while_chunk_cons by discriminate.
  unfold loop_body. simpl.
  change (contains HEAD (x :: f) || contains BODY (x :: f))
    with (contains HEAD ([] ++ x :: f) || contains BODY ([] ++ x :: f)).
  simpl app. rewrite Hhead, Hbody. simpl. now rewrite app_nil_r.
Qed.

Lemma unmarked_small_file_witness :
  let f := b "<p>a fragment</p>" in
  let script := b (_script_to_inject 8000) in
  length f <= CHUNK_SIZE /\
  contains HEAD f = false /\
  contains BODY f = false /\
  stream_file CHUNK_SIZE script f = script.
Proof.
  cbv zeta.
  split; [apply Nat.leb_le; vm_compute; reflexivity|].
  split; [vm_compute; reflexivity|].
  split; [vm_compute; reflexivity|].
  apply (unmarked_small_file CHUNK_SIZE).
  - apply Nat.leb_le. vm_compute. reflexivity.
  - vm_compute. reflexivity.
  - vm_compute. reflexivity.
Defined.

(** *** Markers that lie within one read *)

Lemma loop_body_searching (script : bytes) (st : rewriter) (chunk : bytes) :
  wrote_injected_script st = false ->
  (wrote_injected_script (loop_body script st chunk) = false /\
   written (loop_body script st chunk) = written st) \/
  (wrote_injected_script (loop_body script st chunk) = true /\
   exists before head_tag after,
     written (loop_body script st chunk)
     = written st ++ [before; script; head_tag; after]).
Proof.
  intros H. unfold loop_body. rewrite H. simpl.
  destruct (contains HEAD (end_of_last_chunk st ++ chunk)
            || contains BODY (end_of_last_chunk st ++ chunk)).
  - right. destruct (partition HEAD chunk) as [[before head_tag] after]. simpl.
    split; [reflexivity|]. now exists before, head_tag, after.
  - left. now split.
Qed.

Lemma loop_body_detects (script : bytes) (st : rewriter) (chunk : bytes) :
  contains HEAD chunk || contains BODY chunk = true ->
  wrote_injected_script (loop_body script st chunk) = true.
Proof.
  intros H. unfold loop_body.
  destruct (wrote_injected_script st) eqn:W; simpl; [reflexivity|].
  assert (D : contains HEAD (end_of_last_chunk st ++ chunk)
              || contains BODY (end_of_last_chunk st ++ chunk) = true).
  { apply orb_true_iff in H as [H | H]; apply orb_true_iff; [left | right];
      now apply contains_app_r. }
  rewrite D. now destruct (partition HEAD chunk) as [[before head_tag] after].
Qed.

Lemma while_chunk_reaches_marker
    (script : bytes) (pre : list bytes) (chunk : bytes) (post : list bytes)
    (st : rewriter) :
  Forall (fun c => c <> []) (pre ++ chunk :: post) ->
  contains HEAD chunk || contains BODY chunk = true ->
  wrote_injected_script (while_chunk script (pre ++ chunk :: post) st) = true /\
  exists mid,
    written (while_chunk script (pre ++ chunk :: post) st) = written st ++ mid ++ post /\
    (wrote_injected_script st = false -> exists a z, concat mid = a ++ script ++ z).
Proof.
  intros Hne Hmarker. revert st.
  induction pre as [|c pre IH]; intros st.
  - simpl in Hne. apply Forall_cons in Hne as [Hchunk Hpost].
    simpl app. rewrite while_chunk_cons by exact Hchunk.
    pose proof (loop_body_detects script st chunk Hmarker) as Hflag.
    destruct (while_chunk_pass_through script post _ Hflag Hpost) as [Hend Hwritten].
    split; [exact Hend|].
    destruct (wrote_injected_script st) eqn:W.
    + destruct (loop_body_after_injection script st chunk W) as [_ Hone].
      exists [chunk]. split; [|discriminate].
      rewrite Hwritten, Hone, <- app_assoc. reflexivity.
    + destruct (loop_body_searching script st chunk W)
        as [[Hno _] | [_ (before & head_tag & after & Hone)]]; [congruence|].
      exists [before; script; head_tag; after]. split.
      * rewrite Hwritten, Hone, <- app_assoc. reflexivity.
      * intros _. exists before, (head_tag ++ after). simpl.
        now rewrite ?app_nil_r, <- ?app_assoc.
  - simpl in Hne. apply Forall_cons in Hne as [Hc Hne].
    simpl app. rewrite while_chunk_cons by exact Hc.
    destruct (IH Hne (loop_body script st c)) as [Hend (mid & Hwritten & Hscript)].
    split; [exact Hend|].
    destruct (wrote_injected_script st) eqn:W.
    + destruct (loop_body_after_injection script st c W) as [_ Hone].
      exists (c :: mid). split; [|discriminate].
      rewrite Hwritten, Hone, <- app_assoc. reflexivity.
    + destruct (loop_body_searching script st c W)
        as [[Hno Hsame] | [_ (before & head_tag & after & Hone)]].
      * exists mid. split; [now rewrite Hwritten, Hsame|].
        intros _. now apply Hscript.
      * exists ([before; script; head_tag; after] ++ mid). split.
        -- rewrite Hwritten, Hone, <- !app_assoc. reflexivity.
        -- intros _. exists before, (head_tag ++ after ++ concat mid). simpl.
           now rewrite <- ?app_assoc.
Qed.

(** X6. A marker that lies whole within one read is never missed: the
    script is written during the loop, not appended at the end, it comes
    no later than the end of that read, and every read after that one is
    written unchanged. *)
Theorem whole_marker_is_detected
    (script : bytes) (pre : list bytes) (chunk : bytes) (post : list bytes) :
  Forall (fun c => c <> []) (pre ++ chunk :: post) ->
  contains HEAD chunk || contains BODY chunk = true ->
  wrote_injected_script (while_chunk script (pre ++ chunk :: post) initial) = true /\
  exists a z, stream_body script (pre ++ chunk :: post) = a ++ script ++ z ++ concat post.
Proof.
  intros Hne Hmarker.
  destruct (while_chunk_reaches_marker script pre chunk post initial Hne Hmarker)
    as [Hflag (mid & Hwritten & Hscript)].
  split; [exact Hflag|].
  destruct (Hscript eq_refl) as (a & z & Hmid).
  exists a, z. unfold stream_body, stream_reads.
  rewrite Hflag, Hwritten. simpl.
  now rewrite concat_app, Hmid, <- ?app_assoc.
Qed.

Lemma whole_marker_is_detected_witness :
  let script := b (_script_to_inject 8000) in
  let pre := [b "<html>"; b "<head><title>t</title>"] in
  let chunk := b "<style></style></head><bo" in
  let post := [b "dy><p>hi</p></bo"; b "dy></html>"] in
  Forall (fun c => c <> []) (pre ++ chunk :: post) /\
  contains HEAD chunk || contains BODY chunk = true /\
  wrote_injected_script (while_chunk script (pre ++ chunk :: post) initial) = true /\
  exists a z, stream_body script (pre ++ chunk :: post) = a ++ script ++ z ++ concat post.
Proof.
  cbv zeta.
  split; [repeat constructor; discriminate|].
  split; [vm_compute; reflexivity|].
  apply (whole_marker_is_detected (b (_script_to_inject 8000))
           [b "<html>"; b "<head><title>t</title>"]
           (b "<style></style></head><bo")
           [b "dy><p>hi</p></bo"; b "dy></html>"]).
  - repeat constructor; discriminate.
  - vm_compute. reflexivity.
Defined.

End RewriterProperties.

(** ** More on connections, shutdown and forced reloads *)

Module ConnectionProperties.
Import Py Effects LiveReload Handlers LiveReloadFacts.

(** *** Relations that the handlers keep *)

Section Keeping.

Variable R : server -> server -> Prop.
Variable ws : nat.

Hypothesis R_same :
  forall s s', _open_websockets s' = _open_websockets s -> sockets s' = sockets s -> R s s'.
Hypothesis R_trans : forall s1 s2 s3, R s1 s2 -> R s2 s3 -> R s1 s3.
Hypothesis R_remove : keeps R (registry_remove ws).
Hypothesis R_close : keeps R (ws_close ws).
Hypothesis R_send : forall payload, payload = hello_message -> keeps R (send_json ws payload).

Lemma keeps_ret {A : Type} (a : A) : keeps R (ret a).
Proof. intros s. now apply R_same. Qed.

Lemma keeps_raise {A : Type} (e : exn) : keeps R (raise (A := A) e).
Proof. intros s. now apply R_same. Qed.

Lemma keeps_logger (l : logging.levelname) (fmt : string) (a : list log_arg) :
  keeps R (logger l fmt a).
Proof. intros s. now apply R_same. Qed.

Lemma keeps_bind {A B : Type} (c : M A) (k : A -> M B) :
  keeps R c -> (forall a, keeps R (k a)) -> keeps R (bind c k).
Proof.
  intros Hc Hk s. unfold bind. specialize (Hc s).
  destruct (c s) as [[a|e] s1]; simpl in *.
  - eapply R_trans; [exact Hc | apply Hk].
  - exact Hc.
Qed.

Lemma keeps_try_finally {A : Type} (body : M A) (handler : M unit) :
  keeps R body -> keeps R handler -> keeps R (try_finally body handler).
Proof.
  intros Hb Hh s. unfold try_finally. specialize (Hb s).
  destruct (body s) as [r s1]. specialize (Hh s1).
  destruct (handler s1) as [[u|e] s2]; simpl in *; eapply R_trans; eassumption.
Qed.

Lemma keeps_message (loads : string -> result json) (message : WSMessage) :
  keeps R (_on_websocket_client_message loads ws message).
Proof.
  unfold _on_websocket_client_message.
  destruct (loads (data message)) as [value|e];
    [|destruct e; (apply keeps_logger || apply keeps_raise)].
  destruct (subscript value "command") as [command|e]; [|apply keeps_raise].
  destruct (eq_str command "hello"); [now apply R_send|].
  destruct (eq_str command "info"); apply keeps_logger.
Qed.

Lemma keeps_on_message (loads : string -> result json) (message : WSMessage) :
  keeps R (on_message loads ws message).
Proof.
  unfold on_message.
  destruct (type message); try apply keeps_logger.
  - apply keeps_message.
  - apply keeps_bind; [exact R_remove | intros _; exact R_close].
  - apply keeps_bind; [apply keeps_logger | intros _].
    apply keeps_bind; [exact R_remove | intros _; exact R_close].
Qed.

Lemma keeps_async_for (loads : string -> result json) (messages : list WSMessage) :
  keeps R (async_for loads ws messages).
Proof.
  induction messages as [|message messages IH]; [apply keeps_ret|].
  cbn [async_for]. apply keeps_bind; [apply keeps_on_message | intros _; exact IH].
Qed.

Lemma keeps_cleanup : keeps R (cleanup ws).
Proof.
  unfold cleanup. apply keeps_bind.
  - apply keeps_bind; [intros s; now apply R_same | intros present].
    destruct present; [exact R_remove | apply keeps_ret].
  - intros _. apply keeps_bind; [intros s; now apply R_same | intros is_closed].
    destruct (negb is_closed); [exact R_close | apply keeps_ret].
Qed.

Lemma keeps_connection_loop (loads : string -> result json) (messages : list WSMessage) :
  keeps R (connection_loop loads ws messages).
Proof.
  apply keeps_try_finally; [apply keeps_async_for | apply keeps_cleanup].
Qed.

End Keeping.

(** *** A connection and the other clients *)

Lemma others_untouched_trans (ws : nat) (s1 s2 s3 : server) :
  others_untouched ws s1 s2 -> others_untouched ws s2 s3 -> others_untouched ws s1 s3.
Proof.
  intros H12 H23 other Hne.
  destruct (H12 other Hne) as [Hm12 Hs12], (H23 other Hne) as [Hm23 Hs23].
  split; [now rewrite Hm23 | now rewrite Hs23].
Qed.

Lemma others_untouched_same (ws : nat) (s s' : server) :
  _open_websockets s' = _open_websockets s -> sockets s' = sockets s ->
  others_untouched ws s s'.
Proof. intros Hr Hs other _. now rewrite Hr, Hs. Qed.

Lemma others_untouched_remove (ws : nat) :
  keeps (others_untouched ws) (registry_remove ws).
Proof.
  intros s other Hne. unfold registry_remove.
  case_bool_decide; simpl; [|done]. split; [set_solver | reflexivity].
Qed.

Lemma others_untouched_add (ws : nat) :
  keeps (others_untouched ws) (registry_add ws).
Proof. intros s other Hne. simpl. split; [set_solver | reflexivity]. Qed.

Lemma others_untouched_close (ws : nat) :
  keeps (others_untouched ws) (ws_close ws).
Proof.
  intros s other Hne. simpl. split; [reflexivity|].
  now rewrite lookup_alter_ne.
Qed.

Lemma others_untouched_prepare (ws : nat) :
  keeps (others_untouched ws) (ws_prepare ws).
Proof.
  intros s other Hne. simpl. split; [reflexivity|].
  now rewrite lookup_insert_ne.
Qed.

Lemma others_untouched_send (ws : nat) (payload : json) :
  keeps (others_untouched ws) (send_json ws payload).
Proof.
  intros s other Hne. unfold send_json.
  destruct (sockets s !! ws) as [w|]; [|done].
  destruct (closed w || conn_lost w); simpl; [done|].
  split; [reflexivity|]. now rewrite lookup_insert_ne.
Qed.

(** X7. Whatever messages a connection receives and however it ends, its
    handler leaves every other client as it was: registered or not as
    before, and its websocket (outbox, [closed] flag) unchanged. *)
Theorem connection_leaves_others_alone
    (loads : string -> result json) (ws : nat) (messages : list WSMessage)
    (s : server) (other : nat) :
  other <> ws ->
  let s' := snd (_get_livereload_socket loads ws messages s) in
  (other ∈ _open_websockets s' <-> other ∈ _open_websockets s) /\
  sockets s' !! other = sockets s !! other.
Proof.
  intros Hne. cbv zeta.
  assert (K : keeps (others_untouched ws) (_get_livereload_socket loads ws messages)).
  { unfold _get_livereload_socket.
    pose proof (others_untouched_same ws) as Hsame.
    pose proof (others_untouched_trans ws) as Htrans.
    apply keeps_bind; [assumption.. | apply others_untouched_prepare | intros _].
    apply keeps_bind; [assumption.. | apply others_untouched_add | intros _].
    apply keeps_bind; [assumption.. | | intros _; now apply keeps_ret].
    apply keeps_connection_loop; try assumption.
    - apply others_untouched_remove.
    - apply others_untouched_close.
    - intros payload _. apply others_untouched_send. }
  exact (K s other Hne).
Qed.

Lemma connection_leaves_others_alone_witness :
  let messages :=
    [{| type := WSMsgType.TEXT; data := "{}" |};
     {| type := WSMsgType.ERROR; data := "" |}] in
  let s := {| _open_websockets := {[2]};
              sockets := {[2 := new_socket]};
              log := [] |} in
  2 <> 1 /\
  let s' := snd (_get_livereload_socket MiniJson.loads 1 messages s) in
  (2 ∈ _open_websockets s' <-> 2 ∈ _open_websockets s) /\
  sockets s' !! 2 = sockets s !! 2.
Proof.
  cbv zeta. split; [discriminate|].
  apply (connection_leaves_others_alone MiniJson.loads 1 _ _ 2). discriminate.
Defined.

(** *** What a connection is sent, and how it ends *)

Lemma only_acknowledged_trans (ws : nat) (s1 s2 s3 : server) :
  only_acknowledged ws s1 s2 -> only_acknowledged ws s2 s3 -> only_acknowledged ws s1 s3.
Proof.
  unfold only_acknowledged. intros H12 H23.
  destruct (sockets s1 !! ws) as [w1|]; [|exact I].
  destruct H12 as (w2 & n & Hw2 & Hout2). rewrite Hw2 in H23.
  destruct H23 as (w3 & m & Hw3 & Hout3).
  exists w3, (n + m). split; [exact Hw3|].
  now rewrite Hout3, Hout2, repeat_app, app_assoc.
Qed.

Lemma only_acknowledged_sockets (ws : nat) (s s' : server) :
  sockets s' = sockets s -> only_acknowledged ws s s'.
Proof.
  intros Hs. unfold only_acknowledged. rewrite Hs.
  destruct (sockets s !! ws) as [w|]; [|exact I].
  exists w, 0. split; [reflexivity | now rewrite app_nil_r].
Qed.

Lemma only_acknowledged_remove (ws : nat) :
  keeps (only_acknowledged ws) (registry_remove ws).
Proof.
  intros s. apply only_acknowledged_sockets. unfold registry_remove.
  now case_bool_decide.
Qed.

Lemma only_acknowledged_close (ws : nat) :
  keeps (only_acknowledged ws) (ws_close ws).
Proof.
  intros s. unfold only_acknowledged. simpl.
  destruct (sockets s !! ws) as [w|] eqn:Hw; [|exact I].
  exists (close_socket w), 0. rewrite lookup_alter_eq, Hw.
  split; [reflexivity | now rewrite app_nil_r].
Qed.

Lemma only_acknowledged_send (ws : nat) (payload : json) :
  payload = hello_message -> keeps (only_acknowledged ws) (send_json ws payload).
Proof.
  intros -> s. unfold only_acknowledged, send_json.
  destruct (sockets s !! ws) as [w|] eqn:Hw; [|exact I].
  destruct (closed w || conn_lost w); simpl.
  - exists w, 0. split; [exact Hw | now rewrite app_nil_r].
  - exists (deliver hello_message w), 1. now rewrite lookup_insert_eq.
Qed.

Lemma connection_loop_only_acknowledged
    (loads : string -> result json) (ws : nat) (messages : list WSMessage) :
  keeps (only_acknowledged ws) (connection_loop loads ws messages).
Proof.
  apply keeps_connection_loop.
  - intros s s' _ Hs. now apply only_acknowledged_sockets.
  - apply only_acknowledged_trans.
  - apply only_acknowledged_remove.
  - apply only_acknowledged_close.
  - apply only_acknowledged_send.
Qed.

(** The [try ... finally] statement ends in the state its [finally] block
    makes of the state the loop ended in, with the loop's result. *)
Lemma connection_loop_state
    (loads : string -> result json) (ws : nat) (messages : list WSMessage) (s : server) :
  connection_loop loads ws messages s
  = (fst (async_for loads ws messages s),
     {| _open_websockets := _open_websockets (snd (async_for loads ws messages s)) ∖ {[ws]};
        sockets := alter close_socket ws (sockets (snd (async_for loads ws messages s)));
        log := log (snd (async_for loads ws messages s)) |}).
Proof.
  unfold connection_loop, try_finally.
  destruct (async_for loads ws messages s) as [r s2].
  rewrite cleanup_result. reflexivity.
Qed.

(** X8. Whatever messages a connection receives, and whether its handler
    returns or raises, when the handler is done the client is not in the
    registry, its websocket is closed, and all that was ever sent to it by
    the handler are acknowledgements of [hello]. *)
Theorem connection_always_torn_down
    (loads : string -> result json) (ws : nat) (messages : list WSMessage) (s : server) :
  let s' := snd (_get_livereload_socket loads ws messages s) in
  (ws ∉ _open_websockets s') /\
  exists w n,
    sockets s' !! ws = Some w /\
    closed w = true /\
    outbox w = repeat hello_message n.
Proof.
  cbv zeta.
  set (s1 := {| _open_websockets := {[ws]} ∪ _open_websockets s;
                sockets := <[ws := new_socket]> (sockets s);
                log := log s |}).
  assert (Hrun : snd (_get_livereload_socket loads ws messages s)
                 = snd (connection_loop loads ws messages s1)).
  { unfold _get_livereload_socket, bind at 1 2, ws_prepare, registry_add.
    fields. fold s1.
    unfold bind. now destruct (connection_loop loads ws messages s1) as [[u|e] s2]. }
  rewrite Hrun.
  pose proof (connection_loop_only_acknowledged loads ws messages s1) as Hack.
  unfold only_acknowledged in Hack. simpl in Hack.
  rewrite lookup_insert_eq in Hack. destruct Hack as (w & n & Hw & Hout).
  split.
  - rewrite connection_loop_state. simpl. set_solver.
  - exists w, n. split; [exact Hw|]. split; [|exact Hout].
    rewrite connection_loop_state in Hw. simpl in Hw.
    rewrite lookup_alter_eq in Hw.
    destruct (sockets (snd (async_for loads ws messages s1)) !! ws) as [w0|];
      [|discriminate].
    simpl in Hw. injection Hw as <-. reflexivity.
Qed.

(** *** Shutdown *)

Lemma pop_and_close_spec (websockets : list nat) (s : server) :
  exists s',
    pop_and_close websockets s = (Ok tt, s') /\
    _open_websockets s' = _open_websockets s ∖ list_to_set websockets /\
    log s' = log s /\
    (forall ws, ws ∈ websockets ->
       sockets s' !! ws = close_socket <$> sockets s !! ws) /\
    (forall ws, ws ∉ websockets -> sockets s' !! ws = sockets s !! ws).
Proof.
  revert s. induction websockets as [|a l IH]; intros s.
  - exists s. split; [reflexivity|]. split; [set_solver|]. split; [reflexivity|].
    split; [|reflexivity]. intros ws H. now apply elem_of_nil in H.
  - set (s1 := {| _open_websockets := _open_websockets s ∖ {[a]};
                  sockets := alter close_socket a (sockets s);
                  log := log s |}).
    destruct (IH s1) as (s' & Hrun & Hreg & Hlog & Hin & Hout).
    exists s'. split; [exact Hrun|]. split; [|split; [exact Hlog|split]].
    + rewrite Hreg. simpl. set_solver.
    + intros ws Hws. destruct (decide (ws ∈ l)) as [Hl | Hl].
      * rewrite (Hin ws Hl). simpl. rewrite lookup_alter.
        case_decide; [subst a|reflexivity].
        now destruct (sockets s !! ws).
      * apply elem_of_cons in Hws as [-> | Hws]; [|contradiction].
        rewrite (Hout a Hl). simpl. now rewrite lookup_alter_eq.
    + intros ws Hws. apply not_elem_of_cons in Hws as [Hne Hws].
      rewrite (Hout ws Hws). simpl. now rewrite lookup_alter_ne.
Qed.

(** X9. [_on_shutdown] never raises; afterwards the registry is empty,
    every websocket that was registered is closed with its outbox as it
    was, and the websockets that were not registered are untouched. *)
Theorem shutdown_closes_every_registered_client (s : server) :
  let '(r, s') := _on_shutdown s in
  r = Ok tt /\
  _open_websockets s' = ∅ /\
  (forall ws, ws ∈ _open_websockets s ->
     sockets s' !! ws = close_socket <$> sockets s !! ws) /\
  (forall ws, ws ∉ _open_websockets s -> sockets s' !! ws = sockets s !! ws) /\
  log s' = log s.
Proof.
  unfold _on_shutdown.
  destruct (pop_and_close_spec (elements (_open_websockets s)) s)
    as (s' & Hrun & Hreg & Hlog & Hin & Hout).
  rewrite Hrun. split; [reflexivity|]. split; [|split; [|split]].
  - rewrite Hreg. rewrite list_to_set_elements_L. set_solver.
  - intros ws Hws. apply Hin. now apply elem_of_elements.
  - intros ws Hws. apply Hout. now rewrite elem_of_elements.
  - exact Hlog.
Qed.

(** *** Messages other than [hello] *)

(** X10. A text message that decodes to an object whose ["command"] is
    not ["hello"]: the handler returns normally and sends nothing; it
    appends one log record, at level INFO with the reported URL (or
    ["<no URL data>"] when the object has none) for ["info"], at level
    WARNING with the command for anything else. *)
Theorem other_commands_are_only_logged
    (loads : string -> result json) (ws : nat) (message : WSMessage)
    (s : server) (value command : json) :
  type message = WSMsgType.TEXT ->
  loads (data message) = Ok value ->
  subscript value "command" = Ok command ->
  eq_str command "hello" = false ->
  let '(r, s') := on_message loads ws message s in
  r = Ok tt /\
  _open_websockets s' = _open_websockets s /\
  sockets s' = sockets s /\
  log s'
  = log s ++
    [if eq_str command "info"
     then {| level := logging.INFO;
             msg := "Browser connected (livereload): %s";
             args := [ArgJson (get value "url" (JStr "<no URL data>"))] |}
     else {| level := logging.WARNING;
             msg := "Received unknown command from livereload client: %s";
             args := [ArgJson command] |}].
Proof.
  intros Htype Hsome Hcommand Hhello.
  unfold on_message, _on_websocket_client_message.
  rewrite Htype, Hsome, Hcommand, Hhello.
  destruct (eq_str command "info"); repeat split.
Qed.

Lemma other_commands_are_only_logged_witness :
  let message :=
    {| type := WSMsgType.TEXT;
       data := join ["{"; dq; "command"; dq; ":"; dq; "info"; dq; "}"] |} in
  let value := JDict [("command", JStr "info")]%string in
  let s := {| _open_websockets := {[1]};
              sockets := {[1 := new_socket]};
              log := [] |} in
  type message = WSMsgType.TEXT /\
  MiniJson.loads (data message) = Ok value /\
  subscript value "command" = Ok (JStr "info") /\
  eq_str (JStr "info") "hello" = false /\
  let '(r, s') := on_message MiniJson.loads 1 message s in
  r = Ok tt /\
  _open_websockets s' = _open_websockets s /\
  sockets s' = sockets s /\
  log s'
  = log s ++
    [if eq_str (JStr "info") "info"
     then {| level := logging.INFO;
             msg := "Browser connected (livereload): %s";
             args := [ArgJson (get value "url" (JStr "<no URL data>"))] |}
     else {| level := logging.WARNING;
             msg := "Received unknown command from livereload client: %s";
             args := [ArgJson (JStr "info")] |}].
Proof.
  cbv zeta.
  split; [reflexivity|].
  split; [vm_compute; reflexivity|].
  split; [reflexivity|].
  split; [reflexivity|].
  apply (other_commands_are_only_logged MiniJson.loads 1 _ _
           (JDict [("command", JStr "info")]%string) (JStr "info"));
    vm_compute; reflexivity.
Defined.

(** A message that is neither text nor an error nor a close (a
    binary message, a ping, ...): the handler logs a warning naming the
    type and does nothing else; the connection stays as it is. *)
Theorem other_message_types_are_only_logged
    (loads : string -> result json) (ws : nat) (message : WSMessage) (s : server) :
  type message <> WSMsgType.TEXT ->
  type message <> WSMsgType.ERROR ->
  type message <> WSMsgType.CLOSE ->
  on_message loads ws message s
  = (Ok tt, {| _open_websockets := _open_websockets s;
               sockets := sockets s;
               log := log s ++ [{| level := logging.WARNING;
                                   msg := "Unknown web-socket message type: %s";
                                   args := [ArgMsgType (type message)] |}] |}).
Proof.
  intros Htext Herror Hclose. unfold on_message.
  destruct (type message); try reflexivity; congruence.
Qed.

Lemma other_message_types_are_only_logged_witness :
  let message := {| type := WSMsgType.BINARY; data := "" |} in
  let s := {| _open_websockets := {[1]};
              sockets := {[1 := new_socket]};
              log := [] |} in
  type message <> WSMsgType.TEXT /\
  type message <> WSMsgType.ERROR /\
  type message <> WSMsgType.CLOSE /\
  on_message MiniJson.loads 1 message s
  = (Ok tt, {| _open_websockets := _open_websockets s;
               sockets := sockets s;
               log := log s ++ [{| level := logging.WARNING;
                                   msg := "Unknown web-socket message type: %s";
                                   args := [ArgMsgType (type message)] |}] |}).
Proof.
  cbv zeta.
  split; [discriminate|]. split; [discriminate|]. split; [discriminate|].
  apply (other_message_types_are_only_logged MiniJson.loads 1
           {| type := WSMsgType.BINARY; data := "" |}); discriminate.
Defined.

(** *** Errors, closes and the [finally] block *)

Lemma cleanup_nothing_to_do (ws : nat) (s : server) :
  ws ∉ _open_websockets s ->
  match sockets s !! ws with Some w => closed w = true | None => True end ->
  cleanup ws s = (Ok tt, s).
Proof.
  intros Hout Hclosed. rewrite cleanup_result. destruct s as [reg socks lg].
  fields. cbn [sockets _open_websockets log] in Hout, Hclosed.
  replace (reg ∖ {[ws]}) with reg by set_solver.
  now rewrite alter_close_unchanged.
Qed.

(** X11. An ERROR or a CLOSE message for a client that is registered: the
    handler returns normally, the client is out of the registry and its
    websocket is closed; the [finally] block that follows finds nothing
    left to do. *)
Theorem error_or_close_deregisters
    (loads : string -> result json) (ws : nat) (message : WSMessage) (s : server) :
  ws ∈ _open_websockets s ->
  type message = WSMsgType.ERROR \/ type message = WSMsgType.CLOSE ->
  let '(r, s') := on_message loads ws message s in
  r = Ok tt /\
  _open_websockets s' = _open_websockets s ∖ {[ws]} /\
  sockets s' = alter close_socket ws (sockets s) /\
  cleanup ws s' = (Ok tt, s').
Proof.
  intros Hin Htype.
  assert (Hnoop : forall lg,
    cleanup ws {| _open_websockets := _open_websockets s ∖ {[ws]};
                  sockets := alter close_socket ws (sockets s);
                  log := lg |}
    = (Ok tt, {| _open_websockets := _open_websockets s ∖ {[ws]};
                 sockets := alter close_socket ws (sockets s);
                 log := lg |})).
  { intros lg. apply cleanup_nothing_to_do; fields; [set_solver|].
    rewrite lookup_alter_eq. now destruct (sockets s !! ws). }
  unfold on_message.
  destruct Htype as [-> | ->]; unfold bind, logger, ws_close; fields.
  - rewrite registry_remove_present by (fields; exact Hin). fields.
    repeat split; apply Hnoop.
  - rewrite registry_remove_present by exact Hin. fields.
    repeat split; apply Hnoop.
Qed.

Lemma error_or_close_deregisters_witness :
  let message := {| type := WSMsgType.ERROR; data := "" |} in
  let s := {| _open_websockets := {[1; 2]};
              sockets := {[1 := new_socket; 2 := new_socket]};
              log := [] |} in
  (1 ∈ _open_websockets s) /\
  (type message = WSMsgType.ERROR \/ type message = WSMsgType.CLOSE) /\
  let '(r, s') := on_message MiniJson.loads 1 message s in
  r = Ok tt /\
  _open_websockets s' = _open_websockets s ∖ {[1]} /\
  sockets s' = alter close_socket 1 (sockets s) /\
  cleanup 1 s' = (Ok tt, s').
Proof.
  cbv zeta.
  split; [set_solver|].
  split; [now left|].
  apply (error_or_close_deregisters MiniJson.loads 1
           {| type := WSMsgType.ERROR; data := "" |}).
  - set_solver.
  - now left.
Defined.

(** X12. The [finally] block of a connection never raises, and running it
    a second time changes nothing: removal of the client is guarded by a
    membership test and the close by [ws.closed]. *)
Theorem finally_block_twice_is_once (ws : nat) (s : server) :
  fst (cleanup ws s) = Ok tt /\
  (cleanup ws ;; cleanup ws) s = cleanup ws s.
Proof.
  split; [now rewrite cleanup_result|].
  unfold bind. rewrite cleanup_result.
  apply cleanup_nothing_to_do; fields; [set_solver|].
  rewrite lookup_alter_eq. now destruct (sockets s !! ws).
Qed.

(** *** Forced reloads *)

Lemma first_failure {A : Type} (f : A -> bool) (l : list A) :
  forallb f l = false ->
  exists pre x post, l = pre ++ x :: post /\ forallb f pre = true /\ f x = false.
Proof.
  induction l as [|a l IH]; [discriminate|].
  simpl. destruct (f a) eqn:Ha; simpl.
  - intros H. destruct (IH H) as (pre & x & post & -> & Hpre & Hx).
    exists (a :: pre), x, post. simpl. now rewrite Ha, Hpre.
  - intros _. now exists [], a, l.
Qed.

Lemma reload_run (path : string) (s : server) :
  reload path s
  = send_to_each (elements (_open_websockets s)) (reload_message path)
      {| _open_websockets := _open_websockets s;
         sockets := sockets s;
         log := log s ++ [{| level := logging.INFO;
                             msg := ("Reloading " ++ path)%string;
                             args := [] |}] |}.
Proof. reflexivity. Qed.

(** X13. [GET /forcereload] when every registered client can be sent to:
    the handler answers 200 without a body, and every registered client,
    and no other, has received one reload message whose path is the
    request's [path] parameter, or ["*"] when the request has none. *)
Theorem forcereload_notifies_every_client
    (query : list (string * string)) (s : server) :
  forallb (can_send s) (elements (_open_websockets s)) = true ->
  let path := query_get "path" "*" query in
  let '(r, s') := _get_forcereload query s in
  r = Ok {| status := 200; text := None |} /\
  _open_websockets s' = _open_websockets s /\
  (forall ws, ws ∈ _open_websockets s ->
     sockets s' !! ws = deliver (reload_message path) <$> sockets s !! ws) /\
  (forall ws, ws ∉ _open_websockets s -> sockets s' !! ws = sockets s !! ws).
Proof.
  intros Hall. cbv zeta.
  unfold _get_forcereload, bind. rewrite reload_run.
  set (path := query_get "path" "*" query).
  set (s0 := {| _open_websockets := _open_websockets s;
                sockets := sockets s;
                log := log s ++ [{| level := logging.INFO;
                                    msg := ("Reloading " ++ path)%string;
                                    args := [] |}] |}).
  destruct (send_to_each_until_failure (reload_message path)
              (elements (_open_websockets s)) [] s0)
    as (r & s' & Hrun & Hr & Hreg & _ & Hin & Hout).
  - rewrite app_nil_r. apply NoDup_elements.
  - exact Hall.
  - exact I.
  - rewrite app_nil_r in Hrun. rewrite Hrun, Hr. unfold ret.
    split; [reflexivity|]. split; [exact Hreg|]. split.
    + intros ws Hws. apply Hin. now apply elem_of_elements.
    + intros ws Hws. apply Hout. now rewrite elem_of_elements.
Qed.

Lemma forcereload_notifies_every_client_witness :
  let query := [("other", "x")]%string in
  let s := {| _open_websockets := {[1; 2]};
              sockets := {[1 := new_socket; 2 := new_socket; 3 := new_socket]};
              log := [] |} in
  forallb (can_send s) (elements (_open_websockets s)) = true /\
  let path := query_get "path" "*" query in
  let '(r, s') := _get_forcereload query s in
  r = Ok {| status := 200; text := None |} /\
  _open_websockets s' = _open_websockets s /\
  (forall ws, ws ∈ _open_websockets s ->
     sockets s' !! ws = deliver (reload_message path) <$> sockets s !! ws) /\
  (forall ws, ws ∉ _open_websockets s -> sockets s' !! ws = sockets s !! ws).
Proof.
  cbv zeta. split; [vm_compute; reflexivity|].
  apply (forcereload_notifies_every_client [("other", "x")]%string).
  vm_compute. reflexivity.
Defined.

(** X14. [GET /forcereload] when some registered client cannot be sent
    to: [reload] raises, the handler raises with it and produces no
    response, so the request does not get its 200. *)
Theorem forcereload_fails_with_reload
    (query : list (string * string)) (s : server) :
  forallb (can_send s) (elements (_open_websockets s)) = false ->
  exists e, fst (_get_forcereload query s) = Raise e.
Proof.
  intros Hsome.
  destruct (first_failure _ _ Hsome) as (pre & w & post & Hel & Hpre & Hw).
  unfold _get_forcereload, bind. rewrite reload_run.
  set (s0 := {| _open_websockets := _open_websockets s;
                sockets := sockets s;
                log := log s ++ _ |}).
  destruct (send_to_each_until_failure
              (reload_message (query_get "path" "*" query)) pre (w :: post) s0)
    as (r & s' & Hrun & (e & ->) & _).
  - rewrite <- Hel. apply NoDup_elements.
  - exact Hpre.
  - exact Hw.
  - rewrite Hel, Hrun. now exists e.
Qed.

Lemma forcereload_fails_with_reload_witness :
  let lost := {| closed := false; conn_lost := true; outbox := [] |} in
  let s := {| _open_websockets := {[1; 2]};
              sockets := {[1 := new_socket; 2 := lost]};
              log := [] |} in
  forallb (can_send s) (elements (_open_websockets s)) = false /\
  exists e, fst (_get_forcereload [("path", "/style.css")]%string s) = Raise e.
Proof.
  cbv zeta. split; [vm_compute; reflexivity|].
  apply (forcereload_fails_with_reload [("path", "/style.css")]%string).
  vm_compute. reflexivity.
Defined.

End ConnectionProperties.

(** ** More on the static file handler *)

Module StaticProperties.
Import Py Effects Rewriter Static RewriterFacts RewriterProperties.

(** The test [content_type != "text/html"] as a boolean. *)
Lemma match_text_html {T : Type} (content_type : option string) (html other : T) :
  match content_type with
  | Some "text/html"%string => html
  | _ => other
  end
  = if match content_type with
       | Some c => String.eqb c "text/html"
       | None => false
       end
    then html else other.
Proof.
  destruct content_type as [c|]; [|reflexivity].
  do 9 (destruct c as [|a c]; [reflexivity|];
        destruct a as [[] [] [] [] [] [] [] []]; try reflexivity).
  destruct c; reflexivity.
Qed.

Lemma not_text_html (content_type : option string) :
  content_type <> Some "text/html"%string ->
  match content_type with
  | Some c => String.eqb c "text/html"
  | None => false
  end = false.
Proof.
  intros H. destruct content_type as [c|]; [|reflexivity].
  apply String.eqb_neq. congruence.
Qed.

Lemma while_chunk_appends (script : bytes) (reads : list bytes) (st : rewriter) :
  wrote_injected_script st = true ->
  wrote_injected_script (while_chunk script reads st) = true /\
  exists post, written (while_chunk script reads st) = written st ++ post.
Proof.
  revert st. induction reads as [|chunk reads IH]; intros st Hw.
  - split; [exact Hw|]. exists []. now rewrite app_nil_r.
  - destruct chunk as [|x chunk].
    + split; [exact Hw|]. exists []. now rewrite app_nil_r.
    + cbn [while_chunk].
      destruct (loop_body_after_injection script st (x :: chunk) Hw) as [Hw' Hone].
      destruct (IH _ Hw') as [Hflag (post & Hpost)].
      split; [exact Hflag|]. exists ((x :: chunk) :: post).
      rewrite Hpost, Hone, <- app_assoc. reflexivity.
Qed.

(** [written_before_script] is what the loop of the rewriter writes before
    the script, whatever the reads and the script. *)
Lemma written_before_script_then_script (script : bytes) (reads : list bytes) :
  exists post,
    stream_reads script reads = written_before_script reads [] ++ script :: post.
Proof.
  assert (G : forall e w,
    (wrote_injected_script (while_chunk script reads (Rewriter false e w)) = false /\
     written (while_chunk script reads (Rewriter false e w)) = w /\
     written_before_script reads e = []) \/
    (wrote_injected_script (while_chunk script reads (Rewriter false e w)) = true /\
     exists post,
       written (while_chunk script reads (Rewriter false e w))
       = w ++ written_before_script reads e ++ script :: post)).
  { induction reads as [|chunk reads IH]; intros e w.
    - left. now repeat split.
    - destruct chunk as [|x chunk]; [left; now repeat split|].
      cbn [while_chunk written_before_script].
      unfold loop_body. cbn [wrote_injected_script end_of_last_chunk written negb].
      destruct (contains HEAD (e ++ x :: chunk) || contains BODY (e ++ x :: chunk)).
      + right. destruct (partition HEAD (x :: chunk)) as [[before head_tag] after].
        cbn [wrote_injected_script written].
        destruct (while_chunk_appends script reads
                    (Rewriter true (slice_until_neg 8 (x :: chunk))
                       (w ++ [before; script; head_tag; after])) eq_refl)
          as [Hflag (post & Hpost)].
        split; [exact Hflag|]. exists ([head_tag; after] ++ post).
        rewrite Hpost. cbn [written]. rewrite <- app_assoc. reflexivity.
      + apply IH. }
  unfold stream_reads. change initial with (Rewriter false [] []).
  destruct (G [] []) as [(Hflag & Hwritten & Hnone) | (Hflag & post & Hpost)].
  - exists []. now rewrite Hflag, Hwritten, Hnone.
  - exists post. now rewrite Hflag, Hpost.
Qed.

Section OneHost.

Context {Path : Type} `{Host Path}.

Variable _path_to_serve : Path.
Variable port : Z.

(** X15. A request for a directory that has an [index.html]: the handler
    does with that [index.html] exactly what [_stream_file_with_replacement]
    does with it, after logging the request. *)
Theorem directory_index_is_served (request : Request) :
  let directory := joinpath _path_to_serve (str_tail (path request)) in
  is_dir directory = true ->
  is_file (joinpath directory "index.html") = true ->
  _get_static_file _path_to_serve port request
  = ((logging.INFO, "Serving %s"%string, [path request])
       :: fst (_stream_file_with_replacement _path_to_serve port
                 (joinpath directory "index.html")),
     snd (_stream_file_with_replacement _path_to_serve port
            (joinpath directory "index.html"))).
Proof.
  cbv zeta. intros Hdir Hindex.
  unfold _get_static_file, resolve. rewrite Hdir, Hindex. simpl.
  rewrite Hindex. simpl.
  now destruct (_stream_file_with_replacement _ _ _).
Qed.

(** X16. A request that resolves to a file whose type is [text/html], that
    fits in one read and holds [</head>], when the script can be encoded
    with the guessed encoding (or [utf-8] when there is none): the response
    is a streamed [text/html] one, written to its end, whose body is the
    file with the encoded script immediately before its first [</head>]. *)
Theorem html_file_gets_script_before_head
    (request : Request) (encoding : option string) (script : bytes) (i : nat) :
  let destination_file := resolve _path_to_serve request in
  is_file destination_file = true ->
  guess_type destination_file = (Some "text/html"%string, encoding) ->
  encode (_script_to_inject port) (encoding_or_utf8 encoding) = Some script ->
  length (read_bytes destination_file) <= CHUNK_SIZE ->
  find HEAD (read_bytes destination_file) = Some i ->
  exists writes,
    _get_static_file _path_to_serve port request
    = ([(logging.INFO, "Serving %s"%string, [path request])],
       inl (StreamResponse "text/html" writes)) /\
    concat writes
    = take i (read_bytes destination_file) ++ script
        ++ drop i (read_bytes destination_file).
Proof.
  cbv zeta. intros Hfile Hguess Hencode Hlen F.
  set (f := read_bytes (resolve _path_to_serve request)) in *.
  assert (Hne : f <> []) by (intros E; rewrite E in F; vm_compute in F; discriminate).
  eexists. split.
  - unfold _get_static_file. rewrite Hfile. simpl.
    unfold _stream_file_with_replacement. rewrite Hguess. fold f.
    rewrite Hencode. reflexivity.
  - rewrite file_reads_one_chunk by assumption.
    change (concat (stream_reads script [f])) with (stream_body script [f]).
    rewrite (head_in_one_chunk _ f i F).
    now rewrite (find_skipn HEAD f i F).
Qed.

(** X20. The same request when the script cannot be encoded with the
    guessed encoding, as for every file whose name ends in a compression
    suffix: the response is cut short by [LookupError] at the write of the
    script; only the part of the file before its first [</head>] has been
    sent. *)
Theorem html_file_with_unknown_codec_is_cut_short
    (request : Request) (encoding : option string) (i : nat) :
  let destination_file := resolve _path_to_serve request in
  is_file destination_file = true ->
  guess_type destination_file = (Some "text/html"%string, encoding) ->
  encode (_script_to_inject port) (encoding_or_utf8 encoding) = None ->
  length (read_bytes destination_file) <= CHUNK_SIZE ->
  find HEAD (read_bytes destination_file) = Some i ->
  _get_static_file _path_to_serve port request
  = ([(logging.INFO, "Serving %s"%string, [path request])],
     inl (StreamAborted "text/html" [take i (read_bytes destination_file)]
            LookupError)).
Proof.
  cbv zeta. intros Hfile Hguess Hencode Hlen F.
  set (f := read_bytes (resolve _path_to_serve request)) in *.
  assert (Hne : f <> []) by (intros E; rewrite E in F; vm_compute in F; discriminate).
  assert (C : contains HEAD f = true) by (unfold contains; now rewrite F).
  unfold _get_static_file. rewrite Hfile. simpl.
  unfold _stream_file_with_replacement. rewrite Hguess. fold f.
  rewrite Hencode, file_reads_one_chunk by assumption.
  destruct f as [|x f']; [congruence|].
  cbn [written_before_script app]. rewrite C. cbn [orb].
  unfold partition. rewrite F. reflexivity.
Qed.

(** X17. A request that resolves to a file under the serving root whose
    type is not [text/html]: the response is a [FileResponse] for that
    file; nothing is streamed through the rewriter, so no script is added. *)
Theorem other_file_is_sent_as_it_is
    (request : Request) (content_type encoding : option string) (rel : Path) :
  let destination_file := resolve _path_to_serve request in
  is_file destination_file = true ->
  guess_type destination_file = (content_type, encoding) ->
  content_type <> Some "text/html"%string ->
  relative_to destination_file _path_to_serve = Some rel ->
  snd (_get_static_file _path_to_serve port request)
  = inl (FileResponse destination_file) /\
  streamed (FileResponse destination_file) = [].
Proof.
  cbv zeta. intros Hfile Hguess Hother Hrel. split; [|reflexivity].
  unfold _get_static_file. rewrite Hfile. simpl.
  unfold _stream_file_with_replacement. rewrite Hguess.
  rewrite match_text_html, (not_text_html _ Hother), Hrel. reflexivity.
Qed.

(** X18. A request that resolves to a file whose type is not [text/html]
    and that does not lie under the serving root: computing the relative
    path for the log raises [ValueError], and the handler produces no
    response. *)
Theorem other_file_outside_root_raises
    (request : Request) (content_type encoding : option string) :
  let destination_file := resolve _path_to_serve request in
  is_file destination_file = true ->
  guess_type destination_file = (content_type, encoding) ->
  content_type <> Some "text/html"%string ->
  relative_to destination_file _path_to_serve = None ->
  _get_static_file _path_to_serve port request = ([(logging.INFO, "Serving %s"%string, [path request])], inr ValueError).
Proof.
  cbv zeta. intros Hfile Hguess Hother Hrel.
  unfold _get_static_file. rewrite Hfile. simpl.
  unfold _stream_file_with_replacement. rewrite Hguess.
  rewrite match_text_html, (not_text_html _ Hother), Hrel. reflexivity.
Qed.

(** X19. A request that resolves to an existing file is never answered
    with a whole-body [Response]: in particular never with the 404. *)
Theorem existing_file_is_never_404 (request : Request) (status : nat) (text : string) :
  is_file (resolve _path_to_serve request) = true ->
  snd (_get_static_file _path_to_serve port request) <> inl (Response status text).
Proof.
  intros Hfile. unfold _get_static_file. rewrite Hfile. simpl.
  unfold _stream_file_with_replacement.
  destruct (guess_type (resolve _path_to_serve request)) as [content_type encoding].
  rewrite match_text_html.
  destruct (match content_type with
            | Some c => String.eqb c "text/html"
            | None => false
            end); simpl.
  - destruct (encode _ _); simpl; discriminate.
  - destruct (relative_to _ _); simpl; discriminate.
Qed.

End OneHost.

(** The theorems above on a small tree: a served directory [/srv] with a
    text file and a subdirectory that has an [index.html], and a file
    outside of it. *)

Lemma directory_index_is_served_witness :
  let h := Posix.host
             [("/srv", Posix.Directory); ("/srv/docs", Posix.Directory);
              ("/srv/docs/index.html", Posix.File (b "<html><head></head></html>"))]%string in
  let root := Posix.parse "/srv" in
  let request := {| path := "/docs" |} in
  let directory := @joinpath _ h root (str_tail (path request)) in
  @is_dir _ h directory = true /\
  @is_file _ h (@joinpath _ h directory "index.html") = true /\
  @_get_static_file _ h root 8000 request
  = ((logging.INFO, "Serving %s"%string, [path request])
       :: fst (@_stream_file_with_replacement _ h root 8000
                 (@joinpath _ h directory "index.html")),
     snd (@_stream_file_with_replacement _ h root 8000
            (@joinpath _ h directory "index.html"))).
Proof.
  cbv zeta.
  split; [vm_compute; reflexivity|].
  split; [vm_compute; reflexivity|].
  apply (@directory_index_is_served _
           (Posix.host
              [("/srv", Posix.Directory); ("/srv/docs", Posix.Directory);
               ("/srv/docs/index.html", Posix.File (b "<html><head></head></html>"))]%string)
           (Posix.parse "/srv") 8000 {| path := "/docs" |});
    vm_compute; reflexivity.
Defined.

Lemma html_file_gets_script_before_head_witness :
  let h := Posix.host
             [("/srv", Posix.Directory); ("/srv/docs", Posix.Directory);
              ("/srv/docs/index.html", Posix.File (b "<html><head></head></html>"))]%string in
  let root := Posix.parse "/srv" in
  let request := {| path := "/docs" |} in
  let destination_file := @resolve _ h root request in
  let script := b (_script_to_inject 8000) in
  @is_file _ h destination_file = true /\
  @guess_type _ h destination_file = (Some "text/html"%string, None) /\
  @encode _ h (_script_to_inject 8000) (encoding_or_utf8 None) = Some script /\
  length (@read_bytes _ h destination_file) <= CHUNK_SIZE /\
  find HEAD (@read_bytes _ h destination_file) = Some 12 /\
  exists writes,
    @_get_static_file _ h root 8000 request
    = ([(logging.INFO, "Serving %s"%string, [path request])],
       inl (StreamResponse "text/html" writes)) /\
    concat writes
    = take 12 (@read_bytes _ h destination_file) ++ script
        ++ drop 12 (@read_bytes _ h destination_file).
Proof.
  cbv zeta.
  split; [vm_compute; reflexivity|].
  split; [vm_compute; reflexivity|].
  split; [vm_compute; reflexivity|].
  split; [apply Nat.leb_le; vm_compute; reflexivity|].
  split; [vm_compute; reflexivity|].
  apply (@html_file_gets_script_before_head _
           (Posix.host
              [("/srv", Posix.Directory); ("/srv/docs", Posix.Directory);
               ("/srv/docs/index.html", Posix.File (b "<html><head></head></html>"))]%string)
           (Posix.parse "/srv") 8000 {| path := "/docs" |} None
           (b (_script_to_inject 8000)) 12).
  - vm_compute. reflexivity.
  - vm_compute. reflexivity.
  - vm_compute. reflexivity.
  - apply Nat.leb_le. vm_compute. reflexivity.
  - vm_compute. reflexivity.
Defined.

Lemma html_file_with_unknown_codec_is_cut_short_witness :
  let h := Posix.host
             [("/srv", Posix.Directory);
              ("/srv/page.html.gz", Posix.File (b "<html><head></head></html>"))]%string in
  let root := Posix.parse "/srv" in
  let request := {| path := "/page.html.gz" |} in
  let destination_file := @resolve _ h root request in
  @is_file _ h destination_file = true /\
  @guess_type _ h destination_file = (Some "text/html"%string, Some "gzip"%string) /\
  @encode _ h (_script_to_inject 8000) (encoding_or_utf8 (Some "gzip"%string)) = None /\
  length (@read_bytes _ h destination_file) <= CHUNK_SIZE /\
  find HEAD (@read_bytes _ h destination_file) = Some 12 /\
  @_get_static_file _ h root 8000 request
  = ([(logging.INFO, "Serving %s"%string, [path request])],
     inl (StreamAborted "text/html" [take 12 (@read_bytes _ h destination_file)]
            LookupError)).
Proof.
  cbv zeta.
  split; [vm_compute; reflexivity|].
  split; [vm_compute; reflexivity|].
  split; [vm_compute; reflexivity|].
  split; [apply Nat.leb_le; vm_compute; reflexivity|].
  split; [vm_compute; reflexivity|].
  apply (@html_file_with_unknown_codec_is_cut_short _
           (Posix.host
              [("/srv", Posix.Directory);
               ("/srv/page.html.gz", Posix.File (b "<html><head></head></html>"))]%string)
           (Posix.parse "/srv") 8000 {| path := "/page.html.gz" |}
           (Some "gzip"%string) 12).
  - vm_compute. reflexivity.
  - vm_compute. reflexivity.
  - vm_compute. reflexivity.
  - apply Nat.leb_le. vm_compute. reflexivity.
  - vm_compute. reflexivity.
Defined.

Lemma other_file_is_sent_as_it_is_witness :
  let h := Posix.host
             [("/srv", Posix.Directory); ("/srv/a.txt", Posix.File (b "hi"))]%string in
  let root := Posix.parse "/srv" in
  let request := {| path := "/a.txt" |} in
  let destination_file := @resolve _ h root request in
  let rel := {| Posix.anchored := false; Posix.parts := ["a.txt"%string] |} in
  @is_file _ h destination_file = true /\
  @guess_type _ h destination_file = (Some "text/plain"%string, None) /\
  Some "text/plain"%string <> Some "text/html"%string /\
  @relative_to _ h destination_file root = Some rel /\
  snd (@_get_static_file _ h root 8000 request) = inl (FileResponse destination_file) /\
  streamed (FileResponse destination_file) = [].
Proof.
  cbv zeta.
  split; [vm_compute; reflexivity|].
  split; [vm_compute; reflexivity|].
  split; [discriminate|].
  split; [vm_compute; reflexivity|].
  apply (@other_file_is_sent_as_it_is _
           (Posix.host
              [("/srv", Posix.Directory); ("/srv/a.txt", Posix.File (b "hi"))]%string)
           (Posix.parse "/srv") 8000 {| path := "/a.txt" |}
           (Some "text/plain"%string) None
           {| Posix.anchored := false; Posix.parts := ["a.txt"%string] |}).
  - vm_compute. reflexivity.
  - vm_compute. reflexivity.
  - discriminate.
  - vm_compute. reflexivity.
Defined.

Lemma other_file_outside_root_raises_witness :
  let h := Posix.host
             [("/srv", Posix.Directory); ("/etc", Posix.Directory);
              ("/etc/hostname", Posix.File (b "box"))]%string in
  let root := Posix.parse "/srv" in
  let request := {| path := "//etc/hostname" |} in
  let destination_file := @resolve _ h root request in
  @is_file _ h destination_file = true /\
  @guess_type _ h destination_file = (None, None) /\
  None <> Some "text/html"%string /\
  @relative_to _ h destination_file root = None /\
  @_get_static_file _ h root 8000 request
  = ([(logging.INFO, "Serving %s"%string, [path request])], inr ValueError).
Proof.
  cbv zeta.
  split; [vm_compute; reflexivity|].
  split; [vm_compute; reflexivity|].
  split; [discriminate|].
  split; [vm_compute; reflexivity|].
  apply (@other_file_outside_root_raises _
           (Posix.host
              [("/srv", Posix.Directory); ("/etc", Posix.Directory);
               ("/etc/hostname", Posix.File (b "box"))]%string)
           (Posix.parse "/srv") 8000 {| path := "//etc/hostname" |} None None).
  - vm_compute. reflexivity.
  - vm_compute. reflexivity.
  - discriminate.
  - vm_compute. reflexivity.
Defined.

Lemma existing_file_is_never_404_witness :
  let h := Posix.host
             [("/srv", Posix.Directory); ("/srv/a.txt", Posix.File (b "hi"))]%string in
  let root := Posix.parse "/srv" in
  let request := {| path := "/a.txt" |} in
  @is_file _ h (@resolve _ h root request) = true /\
  snd (@_get_static_file _ h root 8000 request) <> inl (Response 404 "").
Proof.
  cbv zeta.
  split; [vm_compute; reflexivity|].
  apply (@existing_file_is_never_404 _
           (Posix.host
              [("/srv", Posix.Directory); ("/srv/a.txt", Posix.File (b "hi"))]%string)
           (Posix.parse "/srv") 8000 {| path := "/a.txt" |} 404 "").
  vm_compute. reflexivity.
Defined.

End StaticProperties.
